(** * HCL Sliders: the colour-conversion core ([colorconversion.py])

    A shallow embedding of the [Convert] class of the plugin and the
    verification of its specification.

    Numbers.  Python floats are embedded as real numbers ([R]): every
    arithmetic operation is exact, there is no rounding, overflow, infinity
    or NaN.  Where binary64 rounding itself decides a property, the
    function concerned is embedded a second time over the kernel's
    primitive floats (module [F64]), which are IEEE 754 binary64 like
    Python's.

    Failure.  Python raises [ZeroDivisionError] on a division by zero and
    yields a complex number for a negative base under a fractional
    exponent; both are results of type [exc] here, as are the exceptions
    the code raises itself.  [NotReal] marks a value that is no real
    number (complex, infinite or NaN).  A division by a literal constant cannot fail
    and is written with the plain division of [R].

    Strings are [string]s of 8-bit characters. *)

From Stdlib Require Import Floats.
From Stdlib Require Import Reals Lra Lia ZArith Bool List.
From Stdlib Require Import Ascii String HexString.
Import ListNotations.

Set Warnings "-inexact-float".

Local Open Scope string_scope.
Local Open Scope Z_scope.
Local Open Scope R_scope.

(** ** Exceptions *)

Inductive exn : Set :=
| TypeError
| ValueError
| ZeroDivisionError
| NotReal.   (* a complex number, an infinity or a NaN where the code expects a float *)

Inductive exc (A : Type) : Type :=
| Ok (a : A)
| Raise (e : exn).

Arguments Ok {A} a.
Arguments Raise {A} e.

Definition bind {A B : Type} (m : exc A) (k : A -> exc B) : exc B :=
  match m with
  | Ok a => k a
  | Raise e => Raise e
  end.

Notation "x <- m ;; k" := (bind m (fun x => k))
  (at level 61, m at next level, right associativity).
Notation "' p <- m ;; k" := (bind m (fun p => k))
  (at level 61, p pattern, m at next level, right associativity).

(** [returns P m]: whenever [m] returns a value, the value satisfies [P]. *)
Definition returns {A : Type} (P : A -> Prop) (m : exc A) : Prop :=
  match m with
  | Ok a => P a
  | Raise _ => True
  end.

(** ** Python values and arithmetic *)

(** The values a caller can pass where the code expects the number of
    decimal places. *)
Inductive pyobj : Type :=
| PyInt (z : Z)
| PyBool (b : bool)
| PyFloat (x : R)
| PyStr (s : string)
| PyNone.

(** [isinstance(d, int)]: [bool] is a subclass of [int]. *)
Definition isinstance_int (d : pyobj) : option Z :=
  match d with
  | PyInt z => Some z
  | PyBool b => Some (if b then 1%Z else 0%Z)
  | _ => None
  end.

(** [x / y] *)
Definition fdiv (x y : R) : exc R :=
  if Req_dec_T y 0 then Raise ZeroDivisionError else Ok (x / y).

(** [x ** y] for a fractional exponent [y]. *)
Definition pypow (x y : R) : exc R :=
  if Rlt_dec 0 x then Ok (Rpower x y)
  else if Req_dec_T x 0 then
    (if Rlt_dec 0 y then Ok 0
     else if Req_dec_T y 0 then Ok 1
     else Raise ZeroDivisionError)
  else Raise NotReal.

(** [math.floor] *)
Definition floor (x : R) : Z := Int_part x.

(** [int(x)]: truncation toward zero *)
Definition pyint (x : R) : Z :=
  if Rle_dec 0 x then floor x else (- floor (- x))%Z.

(** [x % y] on floats, for a positive literal [y] *)
Definition fmod (x y : R) : R := x - y * IZR (floor (x / y)).

(** [round(x, d)]: to the nearest multiple of [10 ** -d], ties to even. *)
Definition pyround (x : R) (d : nat) : R :=
  let f := 10 ^ d in
  let y := x * f in
  let n := floor y in
  let r := y - IZR n in
  if Rlt_dec r (1 / 2) then IZR n / f
  else if Rlt_dec (1 / 2) r then IZR (n + 1) / f
  else if Z.even n then IZR n / f else IZR (n + 1) / f.

(** [max(a, b, c)] and [min(a, b, c)] *)
Definition max3 (a b c : R) : R := Rmax a (Rmax b c).
Definition min3 (a b c : R) : R := Rmin a (Rmin b c).

(** [sys.float_info.max] *)
Definition float_max : R := (2 - / 2 ^ 52) * 2 ^ 1023.

Definition rgb : Type := (R * R * R)%type.

(** [trc == "sRGB"] *)
Definition is_sRGB (trc : string) : bool := String.eqb trc "sRGB".

(** ** The module's constants *)

(* luma coefficents for ITU-R BT.709 *)
Definition Y709R : R := 0.2126.
Definition Y709G : R := 0.7152.
Definition Y709B : R := 0.0722.
(* constants for sRGB transfer *)
Definition ALPHA : R := 0.055.
Definition GAMMA : R := 2.4.
Definition PHI : R := 12.92.
(* toe functions *)
Definition K1 : R := 0.206.
Definition K2 : R := 0.03.
Definition K3 : R := (1.0 + K1) / (1.0 + K2).

(** ** Scalar utilities *)

Definition roundZero (n : R) (d : pyobj) : exc R :=
  let s := if Rlt_dec n 0 then -1 else 1 in
  match isinstance_int d with
  | None => Raise TypeError
  | Some d =>
      if (d <? 0)%Z then Raise ValueError
      else if (d =? 0)%Z then Ok (IZR (floor (Rabs n)) * s)
      else
        let f := IZR (10 ^ d) in
        Ok (IZR (floor (Rabs n * f)) / f * s)
  end.

Definition clampF (f u l : R) : R :=
  (* red may be negative in parts of blue due to color being out of gamut *)
  if Rlt_dec f l then l
  (* round up near 1 and prevent going over 1 from oklab conversion *)
  else if orb (andb (if Req_dec_T u 1 then true else false)
                    (if Rlt_dec 0.999999 f then true else false))
              (if Rlt_dec u f then true else false)
  then u
  else f.

(** [clampF(f)] with the default bounds [u = 1], [l = 0] *)
Definition clampF01 (f : R) : R := clampF f 1 0.

(** The base of [**] is positive under the guard of each transfer
    function, so the power is the real one. *)
Definition componentToSRGB (c : R) : R :=
  if Rlt_dec 0.0031308 c
  then (1 + ALPHA) * Rpower c (1 / GAMMA) - ALPHA
  else c * PHI.

Definition componentToLinear (c : R) : R :=
  if Rlt_dec 0.04045 c
  then Rpower ((c + ALPHA) / (1 + ALPHA)) GAMMA
  else c / PHI.

(** [math.atan2(y, x)] *)
Definition atan2 (y x : R) : R :=
  if Rlt_dec 0 x then atan (y / x)
  else if Rlt_dec x 0 then
    (if Rle_dec 0 y then atan (y / x) + PI else atan (y / x) - PI)
  else if Rlt_dec 0 y then PI / 2
  else if Rlt_dec y 0 then - (PI / 2)
  else 0.

(** [math.hypot], [math.degrees], [math.radians] *)
Definition hypot (a b : R) : R := sqrt (a * a + b * b).
Definition degrees (x : R) : R := x * 180 / PI.
Definition radians (x : R) : R := x * PI / 180.

Definition cartesianToPolar (a b : R) : R * R :=
  let c := hypot a b in
  let hRad := atan2 b a in
  let hRad := if Rlt_dec hRad 0 then hRad + PI * 2 else hRad in
  let h := degrees hRad in
  (c, h).

Definition polarToCartesian (c h : R) : R * R :=
  let hRad := radians h in
  let a := c * cos hRad in
  let b := c * sin hRad in
  (a, b).

(** ** Oklab core *)

Definition linearToOklab (r g b : R) : exc rgb :=
  (* convert to approximate cone responses *)
  let l := 0.412221469470763 * r + 0.5363325372617348 * g + 0.0514459932675022 * b in
  let m := 0.2119034958178252 * r + 0.6806995506452344 * g + 0.1073969535369406 * b in
  let s := 0.0883024591900564 * r + 0.2817188391361215 * g + 0.6299787016738222 * b in
  (* apply non-linearity *)
  l_ <- pypow l (1 / 3) ;;
  m_ <- pypow m (1 / 3) ;;
  s_ <- pypow s (1 / 3) ;;
  (* transform to Lab coordinates *)
  let okL := 0.210454268309314 * l_ + 0.7936177747023054 * m_ - 0.0040720430116193 * s_ in
  let okA := 1.9779985324311684 * l_ - 2.4285922420485799 * m_ + 0.450593709617411 * s_ in
  let okB := 0.0259040424655478 * l_ + 0.7827717124575296 * m_ - 0.8086757549230774 * s_ in
  Ok (okL, okA, okB).

Definition oklabToLinear (okL okA okB : R) : rgb :=
  (* inverse coordinates *)
  let l_ := okL + 0.3963377773761749 * okA + 0.2158037573099136 * okB in
  let m_ := okL - 0.1055613458156586 * okA - 0.0638541728258133 * okB in
  let s_ := okL - 0.0894841775298119 * okA - 1.2914855480194092 * okB in
  (* reverse non-linearity *)
  let l := l_ * l_ * l_ in
  let m := m_ * m_ * m_ in
  let s := s_ * s_ * s_ in
  (* convert to linear rgb *)
  let r := 4.0767416360759574 * l - 3.3077115392580616 * m + 0.2309699031821044 * s in
  let g := -1.2684379732850317 * l + 2.6097573492876887 * m - 0.3413193760026573 * s in
  let b := -0.0041960761386756 * l - 0.7034186179359362 * m + 1.7076146940746117 * s in
  (r, g, b).

(* toe function for L_r *)
Definition toe (x : R) : exc R :=
  q <- pypow ((K3 * x - K1) * (K3 * x - K1) + 4 * K2 * K3 * x) (1 / 2) ;;
  Ok (0.5 * (K3 * x - K1 + q)).

(* inverse toe function for L_r *)
Definition toeInv (x : R) : exc R :=
  fdiv (x * x + K1 * x) (K3 * (x + K2)).

(** ** Gamut boundary search *)

(** The coefficients [(k0, k1, k2, k3, k4, wl, wm, ws)] that
    [computeMaxSaturation] selects. *)
Definition maxSatCoefficients (a b : R) : R * R * R * R * R * R * R * R :=
  if Rlt_dec 1 (-1.88170328 * a - 0.80936493 * b) then
    (* Red component *)
    (1.19086277, 1.76576728, 0.59662641, 0.75515197, 0.56771245,
     4.0767416621, -3.3077115913, 0.2309699292)
  else if Rlt_dec 1 (1.81444104 * a - 1.19445276 * b) then
    (* Green component *)
    (0.73956515, -0.45954404, 0.08285427, 0.12541070, 0.14503204,
     -1.2684380046, 2.6097574011, -0.3413193965)
  else
    (* Blue component *)
    (1.35733652, -0.00915799, -1.15130210, -0.50559606, 0.00692167,
     -0.0041960863, -0.7034186147, 1.7076147010).

(* Finds the maximum saturation possible for a given hue that fits in sRGB
   Saturation here is defined as S = C/L
   a and b must be normalized so a^2 + b^2 == 1 *)
Definition computeMaxSaturation (a b : R) : exc R :=
  let '(k0, k1, k2, k3, k4, wl, wm, ws) := maxSatCoefficients a b in
  (* Approximate max saturation using a polynomial: *)
  let maxS := k0 + k1 * a + k2 * b + k3 * a * a + k4 * a * b in
  (* Do one step Halley's method to get closer *)
  let k_l := 0.3963377774 * a + 0.2158037573 * b in
  let k_m := -0.1055613458 * a - 0.0638541728 * b in
  let k_s := -0.0894841775 * a - 1.2914855480 * b in

  let l_ := 1.0 + maxS * k_l in
  let m_ := 1.0 + maxS * k_m in
  let s_ := 1.0 + maxS * k_s in

  let l := l_ * l_ * l_ in
  let m := m_ * m_ * m_ in
  let s := s_ * s_ * s_ in

  let l_dS := 3.0 * k_l * l_ * l_ in
  let m_dS := 3.0 * k_m * m_ * m_ in
  let s_dS := 3.0 * k_s * s_ * s_ in

  let l_dS2 := 6.0 * k_l * k_l * l_ in
  let m_dS2 := 6.0 * k_m * k_m * m_ in
  let s_dS2 := 6.0 * k_s * k_s * s_ in

  let f := wl * l + wm * m + ws * s in
  let f1 := wl * l_dS + wm * m_dS + ws * s_dS in
  let f2 := wl * l_dS2 + wm * m_dS2 + ws * s_dS2 in

  q <- fdiv (f * f1) (f1 * f1 - 0.5 * f * f2) ;;
  Ok (maxS - q).

(* finds L_cusp and C_cusp for a given hue
   a and b must be normalized so a^2 + b^2 == 1 *)
Definition findCuspLC (a b : R) : exc (R * R) :=
  (* First, find the maximum saturation (saturation S = C/L) *)
  maxS <- computeMaxSaturation a b ;;
  (* Convert to linear sRGB to find the first point where at least one of r,g or b >= 1: *)
  let '(mr, mg, mb) := oklabToLinear 1 (maxS * a) (maxS * b) in
  q <- fdiv 1.0 (max3 mr mg mb) ;;
  cuspL <- pypow q (1 / 3) ;;
  let cuspC := cuspL * maxS in
  Ok (cuspL, cuspC).

(** The first intersection of the upper half: with the triangle. *)
Definition triangleT (l1 c1 l0 : R) (cuspLC : R * R) : exc R :=
  fdiv (snd cuspLC * (l0 - 1.0))
       (c1 * (fst cuspLC - 1.0) + snd cuspLC * (l0 - l1)).

(** One channel of the Halley step of [findGamutIntersection]: the code
    writes these five lines once for each of r, g and b, with the row
    [(wl, wm, ws)] of that channel; the result is [(u_r, t_r)]. *)
Definition halleyChannel (wl wm ws : R)
    (l m s ldt mdt sdt ldt2 mdt2 sdt2 : R) : exc (R * R) :=
  let r := wl * l + wm * m + ws * s - 1 in
  let r1 := wl * ldt + wm * mdt + ws * sdt in
  let r2 := wl * ldt2 + wm * mdt2 + ws * sdt2 in
  u_r <- fdiv r1 (r1 * r1 - 0.5 * r * r2) ;;
  let t_r := - r * u_r in
  Ok (u_r, t_r).

(** [t_r if u_r >= 0.0 else sys.float_info.max] *)
Definition guarded (ut : R * R) : R :=
  if Rle_dec 0.0 (fst ut) then snd ut else float_max.

(** The three channels [(u_r, t_r)], [(u_g, t_g)], [(u_b, t_b)] of the
    Halley step taken from the point [t] of the line. *)
Definition halleyChannels (a b l1 c1 l0 t : R)
  : exc ((R * R) * (R * R) * (R * R)) :=
  let dL := l1 - l0 in
  let dC := c1 in

  let k_l := 0.3963377774 * a + 0.2158037573 * b in
  let k_m := -0.1055613458 * a - 0.0638541728 * b in
  let k_s := -0.0894841775 * a - 1.2914855480 * b in

  let l_dt := dL + dC * k_l in
  let m_dt := dL + dC * k_m in
  let s_dt := dL + dC * k_s in

  (* If higher accuracy is required, 2 or 3 iterations of the following block can be used: *)
  let l := l0 * (1.0 - t) + t * l1 in
  let c := t * c1 in

  let l_ := l + c * k_l in
  let m_ := l + c * k_m in
  let s_ := l + c * k_s in

  let l := l_ * l_ * l_ in
  let m := m_ * m_ * m_ in
  let s := s_ * s_ * s_ in

  let ldt := 3 * l_dt * l_ * l_ in
  let mdt := 3 * m_dt * m_ * m_ in
  let sdt := 3 * s_dt * s_ * s_ in

  let ldt2 := 6 * l_dt * l_dt * l_ in
  let mdt2 := 6 * m_dt * m_dt * m_ in
  let sdt2 := 6 * s_dt * s_dt * s_ in

  ut_r <- halleyChannel 4.0767416621 (-3.3077115913) 0.2309699292
            l m s ldt mdt sdt ldt2 mdt2 sdt2 ;;
  ut_g <- halleyChannel (-1.2684380046) 2.6097574011 (-0.3413193965)
            l m s ldt mdt sdt ldt2 mdt2 sdt2 ;;
  ut_b <- halleyChannel (-0.0041960863) (-0.7034186147) 1.7076147010
            l m s ldt mdt sdt ldt2 mdt2 sdt2 ;;
  Ok (ut_r, ut_g, ut_b).

(** [(l1 - l0) * cuspLC[1] - (cuspLC[0] - l1) * c1 <= 0.0] *)
Definition lowerHalf (l1 c1 l0 : R) (cuspLC : R * R) : Prop :=
  (l1 - l0) * snd cuspLC - (fst cuspLC - l1) * c1 <= 0.0.

Definition lowerHalf_dec (l1 c1 l0 : R) (cuspLC : R * R)
  : {lowerHalf l1 c1 l0 cuspLC} + {~ lowerHalf l1 c1 l0 cuspLC} :=
  Rle_dec _ _.

(* Finds intersection of the line defined by
   L = L0 * (1 - t) + t * L1
   C = t * C1
   a and b must be normalized so a^2 + b^2 == 1 *)
Definition findGamutIntersection (a b l1 c1 l0 : R)
    (cuspLC : option (R * R)) : exc R :=
  (* Find the cusp of the gamut triangle *)
  cuspLC <- match cuspLC with
            | None => findCuspLC a b
            | Some cuspLC => Ok cuspLC
            end ;;
  (* Find the intersection for upper and lower half separately *)
  if lowerHalf_dec l1 c1 l0 cuspLC then
    (* Lower half *)
    fdiv (snd cuspLC * l0) (c1 * fst cuspLC + snd cuspLC * (l0 - l1))
  else
    (* Upper half *)
    (* First intersect with triangle *)
    t <- triangleT l1 c1 l0 cuspLC ;;
    (* Then one step Halley's method *)
    '(ut_r, ut_g, ut_b) <- halleyChannels a b l1 c1 l0 t ;;
    let t_r := guarded ut_r in
    let t_g := guarded ut_g in
    let t_b := guarded ut_b in
    Ok (t + min3 t_r t_g t_b).

Definition cuspToST (cuspLC : R * R) : exc (R * R) :=
  let l := fst cuspLC in
  let c := snd cuspLC in
  s <- fdiv c l ;;
  t <- fdiv c (1 - l) ;;
  Ok (s, t).

(* Returns a smooth approximation of the location of the cusp
   This polynomial was created by an optimization process
   It has been designed so that S_mid < S_max and T_mid < T_max *)
Definition getMidST (a_ b_ : R) : exc (R * R) :=
  qs <- fdiv 1.0 (7.44778970 + 4.15901240 * b_
          + a_ * (-2.19557347 + 1.75198401 * b_
            + a_ * (-2.13704948 - 10.02301043 * b_
              + a_ * (-4.24894561 + 5.38770819 * b_ + 4.69891013 * a_)))) ;;
  let s := 0.11516993 + qs in
  qt <- fdiv 1.0 (1.61320320 - 0.68124379 * b_
          + a_ * (0.40370612 + 0.90148123 * b_
            + a_ * (-0.27087943 + 0.61223990 * b_
              + a_ * (0.00299215 - 0.45399568 * b_ - 0.14661872 * a_)))) ;;
  let t := 0.11239642 + qt in
  Ok (s, t).

Definition getCs (l a_ b_ : R) : exc rgb :=
  cuspLC <- findCuspLC a_ b_ ;;
  cMax <- findGamutIntersection a_ b_ l 1 l (Some cuspLC) ;;
  maxST <- cuspToST cuspLC ;;
  (* Scale factor to compensate for the curved part of gamut shape: *)
  k <- fdiv cMax (Rmin (l * fst maxST) ((1 - l) * snd maxST)) ;;
  midST <- getMidST a_ b_ ;;
  (* Use a soft minimum function,
     instead of a sharp triangle shape to get a smooth value for chroma. *)
  q1 <- fdiv 1 ((l * fst midST) ^ 4) ;;
  q2 <- fdiv 1 (((1 - l) * snd midST) ^ 4) ;;
  q3 <- fdiv 1 (q1 + q2) ;;
  p <- pypow q3 (1 / 4) ;;
  let cMid := 0.9 * k * p in
  (* for C_0, the shape is independent of hue, so ST are constant.
     Values picked to roughly be the average values of ST. *)
  q4 <- fdiv 1 ((l * 0.4) ^ 2) ;;
  q5 <- fdiv 1 (((1 - l) * 0.8) ^ 2) ;;
  q6 <- fdiv 1 (q4 + q5) ;;
  c0 <- pypow q6 (1 / 2) ;;
  Ok (c0, cMid, cMax).

(** ** Python strings *)

Module PyStr.

Definition code (c : ascii) : nat := nat_of_ascii c.

(** [str.isspace] on the code points below 256 *)
Definition is_space (c : ascii) : bool :=
  let n := code c in
  ((9 <=? n) && (n <=? 13) || (28 <=? n) && (n <=? 32)
   || (n =? 133) || (n =? 160))%nat.

Definition is_digit (c : ascii) : bool :=
  let n := code c in ((48 <=? n) && (n <=? 57))%nat.

Definition digit_value (c : ascii) : Z := (Z.of_nat (code c) - 48)%Z.

(** The value of a digit of base 16, if it is one. *)
Definition hex_value (c : ascii) : option Z :=
  let n := code c in
  if is_digit c then Some (digit_value c)
  else if ((97 <=? n) && (n <=? 102))%nat then Some (Z.of_nat n - 87)%Z
  else if ((65 <=? n) && (n <=? 70))%nat then Some (Z.of_nat n - 55)%Z
  else None.

Definition is_hex (c : ascii) : bool :=
  match hex_value c with Some _ => true | None => false end.

Definition chars (s : string) : list ascii := list_ascii_of_string s.
Definition str (cs : list ascii) : string := string_of_list_ascii cs.

(** [s.startswith(p)], [s.endswith(p)] *)
Definition startswith (s p : string) : bool := prefix p s.
Definition endswith (s p : string) : bool :=
  let n := String.length s in
  let m := String.length p in
  ((m <=? n)%nat && String.eqb (substring (n - m) m s) p).

(** [s[i:j]], [s[i:]], [s[:-n]] and the one-character string [s[i]] of
    an index in range *)
Definition slice (s : string) (i j : nat) : string := substring i (j - i) s.
Definition slice_from (s : string) (i : nat) : string :=
  substring i (String.length s - i) s.
Definition drop_last (s : string) (n : nat) : string :=
  substring 0 (String.length s - n) s.
Definition index (s : string) (i : nat) : string := substring i 1 s.

Fixpoint lstrip (p : ascii -> bool) (cs : list ascii) : list ascii :=
  match cs with
  | [] => []
  | c :: r => if p c then lstrip p r else cs
  end.

Definition rstrip (p : ascii -> bool) (cs : list ascii) : list ascii :=
  rev (lstrip p (rev cs)).

(** [s.strip(set)] *)
Definition strip (p : ascii -> bool) (s : string) : string :=
  str (rstrip p (lstrip p (chars s))).

(** [s.split()], with the word being read held in reverse in [cur] *)
Fixpoint split_from (cur cs : list ascii) : list string :=
  match cs with
  | [] => match cur with [] => [] | _ => [str (rev cur)] end
  | c :: r =>
      if is_space c then
        match cur with
        | [] => split_from [] r
        | _ => str (rev cur) :: split_from [] r
        end
      else split_from (c :: cur) r
  end.

Definition split (s : string) : list string := split_from [] (chars s).

(** [s.zfill(width)] *)
Definition zfill (s : string) (width : nat) : string :=
  let n := String.length s in
  if (width <=? n)%nat then s
  else
    let pad := str (repeat "0"%char (width - n)) in
    match s with
    | String c r =>
        if (Ascii.eqb c "+" || Ascii.eqb c "-")%bool
        then String c (pad ++ r) else pad ++ s
    | EmptyString => pad
    end.

(** [s.upper()] on the letters of ASCII, the only ones [hex] writes *)
Definition upper_char (c : ascii) : ascii :=
  let n := code c in
  if ((97 <=? n) && (n <=? 122))%nat then ascii_of_nat (n - 32) else c.

Definition upper (s : string) : string := str (map upper_char (chars s)).

(** [hex(n)] *)
Definition hex (n : Z) : string := HexString.of_Z n.

(** *** [int(s, 16)] *)

(** The digits of base 16 and the underscores between them: the value
    read so far, whether the last character was an underscore, and what
    is left of the text at the first other character.  [None] on two
    underscores in a row and on a trailing one. *)
Fixpoint scan_hex (acc : Z) (prev_us : bool) (cs : list ascii)
  : option (Z * list ascii) :=
  match cs with
  | [] => if prev_us then None else Some (acc, [])
  | c :: r =>
      if Ascii.eqb c "_" then
        if prev_us then None else scan_hex acc true r
      else
        match hex_value c with
        | Some v => scan_hex (acc * 16 + v) false r
        | None => if prev_us then None else Some (acc, cs)
        end
  end.

Definition int16 (s : string) : exc Z :=
  let cs := lstrip is_space (chars s) in
  let '(neg, cs) :=
    match cs with
    | c :: r =>
        if Ascii.eqb c "+" then (false, r)
        else if Ascii.eqb c "-" then (true, r)
        else (false, cs)
    | [] => (false, cs)
    end in
  (* the prefix 0x, and one underscore after it *)
  let cs :=
    match cs with
    | c0 :: c1 :: r =>
        if (Ascii.eqb c0 "0" && (Ascii.eqb c1 "x" || Ascii.eqb c1 "X"))%bool
        then match r with
             | c2 :: r' => if Ascii.eqb c2 "_" then r' else r
             | [] => r
             end
        else cs
    | _ => cs
    end in
  match cs with
  | [] => Raise ValueError
  | c :: _ =>
      if is_hex c then
        match scan_hex 0 false cs with
        | Some (v, rest) =>
            match lstrip is_space rest with
            | [] => Ok (if neg then - v else v)%Z
            | _ :: _ => Raise ValueError
            end
        | None => Raise ValueError
        end
      else Raise ValueError
  end.

(** *** [float(s)] *)

(** An underscore is allowed between two digits only; those are
    dropped, any other is an error. *)
Fixpoint drop_underscores (prev_digit : bool) (cs : list ascii)
  : option (list ascii) :=
  match cs with
  | [] => Some []
  | c :: r =>
      if Ascii.eqb c "_" then
        match r with
        | d :: _ =>
            if (prev_digit && is_digit d)%bool
            then drop_underscores false r else None
        | [] => None
        end
      else
        match drop_underscores (is_digit c) r with
        | Some r' => Some (c :: r')
        | None => None
        end
  end.

Fixpoint span_digits (cs : list ascii) : list ascii * list ascii :=
  match cs with
  | c :: r =>
      if is_digit c then let '(ds, rest) := span_digits r in (c :: ds, rest)
      else ([], cs)
  | [] => ([], [])
  end.

Definition digits_value (ds : list ascii) : Z :=
  fold_left (fun acc c => acc * 10 + digit_value c)%Z ds 0%Z.

Definition take_sign (cs : list ascii) : bool * list ascii :=
  match cs with
  | c :: r =>
      if Ascii.eqb c "+" then (false, r)
      else if Ascii.eqb c "-" then (true, r)
      else (false, cs)
  | [] => (false, cs)
  end.

Definition lower_char (c : ascii) : ascii :=
  let n := code c in
  if ((65 <=? n) && (n <=? 90))%nat then ascii_of_nat (n + 32) else c.

(** [inf], [infinity] and [nan], in any case *)
Definition is_nonfinite (cs : list ascii) : bool :=
  let w := str (map lower_char cs) in
  (String.eqb w "inf" || String.eqb w "infinity" || String.eqb w "nan")%bool.

(** The exponent [e [sign] digits] of a literal, or none; [None] when
    the text is neither. *)
Definition exponent (cs : list ascii) : option Z :=
  match cs with
  | [] => Some 0%Z
  | c :: r =>
      if (Ascii.eqb c "e" || Ascii.eqb c "E")%bool then
        let '(neg, r) := take_sign r in
        match span_digits r with
        | ((_ :: _) as ds, []) =>
            Some (if neg then - digits_value ds else digits_value ds)%Z
        | _ => None
        end
      else None
  end.

(** The decimal literal [s] as [(m, e)], standing for [m * 10 ** e]. *)
Inductive literal : Type :=
| Decimal (m e : Z)
| NonFinite
| Malformed.

Definition read_float (s : string) : literal :=
  let cs := rstrip is_space (lstrip is_space (chars s)) in
  let '(neg, cs) := take_sign cs in
  if is_nonfinite cs then NonFinite
  else
    match drop_underscores false cs with
    | None => Malformed
    | Some cs =>
        let '(ip, rest) := span_digits cs in
        let '(fp, rest) :=
          match rest with
          | c :: r => if Ascii.eqb c "." then span_digits r else ([], rest)
          | [] => ([], rest)
          end in
        match (ip ++ fp)%list with
        | [] => Malformed
        | ds =>
            match exponent rest with
            | Some e =>
                let m := digits_value ds in
                Decimal (if neg then - m else m)%Z
                        (e - Z.of_nat (List.length fp))%Z
            | None => Malformed
            end
        end
    end.

End PyStr.

(** [m * 10 ** e] *)
Definition decimal_value (m e : Z) : R :=
  if (0 <=? e)%Z then IZR (m * 10 ^ e) else IZR m / IZR (10 ^ (- e)).

(** [float(s)]: the literals [inf] and [nan] denote no real number. *)
Definition pyfloat (s : string) : exc R :=
  match PyStr.read_float s with
  | PyStr.Decimal m e => Ok (decimal_value m e)
  | PyStr.NonFinite => Raise NotReal
  | PyStr.Malformed => Raise ValueError
  end.

(** [try: m  except ValueError: h] *)
Definition except_ValueError {A : Type} (m h : exc A) : exc A :=
  match m with
  | Raise ValueError => h
  | _ => m
  end.

(** [round(x)]: the nearest integer, ties to even *)
Definition pyround_int (x : R) : Z :=
  let n := floor x in
  let r := x - IZR n in
  if Rlt_dec r (1 / 2) then n
  else if Rlt_dec (1 / 2) r then (n + 1)%Z
  else if Z.even n then n else (n + 1)%Z.

(** ** Notation codec: hex *)

Definition rgbFToInt8 (r g b : R) (trc : string) : Z * Z * Z :=
  if is_sRGB trc then
    let r := pyint (r * 255) in
    let g := pyint (g * 255) in
    let b := pyint (b * 255) in
    (r, g, b)
  else
    let r := pyround_int (componentToSRGB r * 255) in
    let g := pyround_int (componentToSRGB g * 255) in
    let b := pyround_int (componentToSRGB b * 255) in
    (r, g, b).

Definition rgbFToHexS (r g b : R) (trc : string) : string :=
  (* hex codes are in 8 bits per color *)
  let '(ri, gi, bi) := rgbFToInt8 r g b trc in
  (* hex converts int to str with first 2 char being 0x *)
  let r := PyStr.upper (PyStr.zfill (PyStr.slice_from (PyStr.hex ri) 2) 2) in
  let g := PyStr.upper (PyStr.zfill (PyStr.slice_from (PyStr.hex gi) 2) 2) in
  let b := PyStr.upper (PyStr.zfill (PyStr.slice_from (PyStr.hex bi) 2) 2) in
  "#" ++ r ++ g ++ b.

Definition hexSToRgbF (syntax trc : string) : exc (option rgb) :=
  let len := String.length syntax in
  if (negb (PyStr.startswith syntax "#")
      || negb ((len =? 4)%nat || (len =? 7)%nat))%bool
  then Ok None
  else
    except_ValueError
      (r <- PyStr.int16 (if (len =? 4)%nat
                         then PyStr.index syntax 1 ++ PyStr.index syntax 1
                         else PyStr.slice syntax 1 3) ;;
       g <- PyStr.int16 (if (len =? 4)%nat
                         then PyStr.index syntax 2 ++ PyStr.index syntax 2
                         else PyStr.slice syntax 3 5) ;;
       b <- PyStr.int16 (if (len =? 4)%nat
                         then PyStr.index syntax 3 ++ PyStr.index syntax 3
                         else PyStr.slice syntax 5 7) ;;
       let r := IZR r / 255.0 in
       let g := IZR g / 255.0 in
       let b := IZR b / 255.0 in
       if is_sRGB trc then Ok (Some (r, g, b))
       else
         let r := componentToLinear r in
         let g := componentToLinear g in
         let b := componentToLinear b in
         Ok (Some (r, g, b)))
      (Ok None).

(** ** Notation codec: oklab() and oklch() *)

(** [c in "( )"] *)
Definition paren_or_space (c : ascii) : bool :=
  (Ascii.eqb c "(" || Ascii.eqb c " " || Ascii.eqb c ")")%bool.

(** The three lines that end every conversion from Oklab:
    [componentToSRGB(rgb[i]) if trc == "sRGB" else rgb[i]], clamped. *)
Definition toDisplay (c : R) (trc : string) : R :=
  clampF01 (if is_sRGB trc then componentToSRGB c else c).

Definition oklabSToRgbF (syntax trc : string) : exc (option rgb) :=
  if negb (PyStr.startswith syntax "oklab") then Ok None
  else
    let strings := PyStr.split (PyStr.strip paren_or_space (PyStr.slice_from syntax 5)) in
    match strings with
    | [okL; okA; okB] =>
        except_ValueError
          (okL <- (if PyStr.endswith okL "%"
                   then x <- pyfloat (PyStr.drop_last okL 1) ;; Ok (clampF01 (x / 100))
                   else x <- pyfloat okL ;; Ok (clampF01 x)) ;;
           okA <- (if PyStr.endswith okA "%"
                   then x <- pyfloat (PyStr.drop_last okA 1) ;; Ok (clampF (x / 250) 0.4 (-0.4))
                   else x <- pyfloat okA ;; Ok (clampF x 0.4 (-0.4))) ;;
           okB <- (if PyStr.endswith okB "%"
                   then x <- pyfloat (PyStr.drop_last okB 1) ;; Ok (clampF (x / 250) 0.4 (-0.4))
                   else x <- pyfloat okB ;; Ok (clampF x 0.4 (-0.4))) ;;
           let '(r, g, b) := oklabToLinear okL okA okB in
           (* if rgb not linear, perform transfer functions for components *)
           Ok (Some (toDisplay r trc, toDisplay g trc, toDisplay b trc)))
          (Ok None)
    | _ => Ok None
    end.

Definition rgbFToOklch (r g b h : R) (trc : string) : exc (R * R * R * R) :=
  (* if rgb not linear, convert to linear for oklab conversion *)
  let '(r, g, b) :=
    if is_sRGB trc
    then (componentToLinear r, componentToLinear g, componentToLinear b)
    else (r, g, b) in
  '(okL, okA, okB) <- linearToOklab r g b ;;
  let l := okL in
  let ch := cartesianToPolar okA okB in
  let c := fst ch in
  (* chroma of neutral colors will not be exactly 0 due to floating point errors *)
  '(c, h, u) <-
    (if Rlt_dec c 0.000001 then
       (* use current hue to calulate chroma limit in sRGB gamut for neutral colors *)
       let ab := polarToCartesian 1 h in
       u <- findGamutIntersection (fst ab) (snd ab) l 1 l None ;;
       Ok (0, h, u)
     else
       (* a and b must be normalized to c = 1 to calculate chroma limit in sRGB gamut *)
       a_ <- fdiv okA c ;;
       b_ <- fdiv okB c ;;
       u <- findGamutIntersection a_ b_ l 1 l None ;;
       let c := if Rlt_dec u c then u else c in
       (* chroma adjustment due to rounding up blue hue *)
       if (if Rlt_dec 264.052 (snd ch) then true else false)
          && (if Rlt_dec (snd ch) 264.06 then true else false)
       then Ok (pyround (c - 0.0001) 4, 264.06, u)
       else
         c <- roundZero c (PyInt 4) ;;
         Ok (c, pyround (snd ch) 2, u)) ;;
  u <- (if Req_dec_T h 264.06 then Ok (pyround (u - 0.0001) 4)
        else roundZero u (PyInt 4)) ;;
  Ok (pyround (l * 100) 2, c, h, u).

Definition oklchToRgbF (l c h u : R) (trc : string) : exc rgb :=
  let l := l / 100 in
  (* clip chroma if exceed sRGB gamut *)
  let ab := polarToCartesian 1 h in
  c <- (if Req_dec_T c 0 then Ok c
        else
          cMax <- findGamutIntersection (fst ab) (snd ab) l 1 l None ;;
          if Req_dec_T u (-1) then
            Ok (if Rlt_dec cMax c then cMax else c)
          else
            s <- fdiv (c + 0.00005) (u + 0.00005) ;;
            Ok (s * cMax)) ;;
  let '(r, g, b) := oklabToLinear l (fst ab * c) (snd ab * c) in
  (* if rgb not linear, perform transfer functions for components *)
  Ok (toDisplay r trc, toDisplay g trc, toDisplay b trc).

Definition angleStoDeg (a : string) : exc (option R) :=
  except_ValueError
    (d <- (if PyStr.endswith a "deg" then pyfloat (PyStr.drop_last a 3)
           else if PyStr.endswith a "grad" then
             x <- pyfloat (PyStr.drop_last a 4) ;; Ok ((x / 10) * 9)
           else if PyStr.endswith a "rad" then
             x <- pyfloat (PyStr.drop_last a 3) ;; Ok (degrees x)
           else if PyStr.endswith a "turn" then
             x <- pyfloat (PyStr.drop_last a 4) ;; Ok (x * 360)
           else pyfloat a) ;;
     Ok (Some (if Rlt_dec d 0 then fmod d 360 + 360 else d)))
    (Ok None).

Definition oklchSToRgbF (syntax trc : string) : exc (option rgb) :=
  if negb (PyStr.startswith syntax "oklch") then Ok None
  else
    let strings := PyStr.split (PyStr.strip paren_or_space (PyStr.slice_from syntax 5)) in
    match strings with
    | [l; c; h] =>
        parsed <-
          except_ValueError
            (l <- (if PyStr.endswith l "%"
                   then x <- pyfloat (PyStr.drop_last l 1) ;; Ok (clampF01 (x / 100))
                   else x <- pyfloat l ;; Ok (clampF01 x)) ;;
             c <- (if PyStr.endswith c "%"
                   then x <- pyfloat (PyStr.drop_last c 1) ;; Ok (clampF (x / 250) 0.4 0)
                   else x <- pyfloat c ;; Ok (clampF x 0.4 0)) ;;
             h <- angleStoDeg h ;;
             match h with
             | None => Ok None
             | Some h => Ok (Some (l, c, h))
             end)
            (Ok None) ;;
        match parsed with
        | None => Ok None
        | Some (l, c, h) =>
            res <- oklchToRgbF (l * 100) c h (-1) trc ;; Ok (Some res)
        end
    | _ => Ok None
    end.

(** ** HSV, HSL and HCY *)

(** [trc == "linear"] *)
Definition is_linear (trc : string) : bool := String.eqb trc "linear".

Definition hSectorToRgbF (hSector : Z) (v m x : R) (trc : string) : rgb :=
  (* assign max, med and min according to hue sector *)
  let '(r, g, b) :=
    if (hSector =? 1)%Z then (x, v, m)        (* between yellow and green *)
    else if (hSector =? 2)%Z then (m, v, x)   (* between green and cyan *)
    else if (hSector =? 3)%Z then (m, x, v)   (* between cyan and blue *)
    else if (hSector =? 4)%Z then (x, m, v)   (* between blue and magenta *)
    else if (hSector =? 5)%Z then (v, m, x)   (* between magenta and red *)
    else (v, x, m)                            (* between red and yellow *) in
  (* convert to linear if not sRGB *)
  if is_sRGB trc then (r, g, b)
  else
    let r := componentToLinear r in
    let g := componentToLinear g in
    let b := componentToLinear b in
    (r, g, b).

Definition hsvToRgbF (h s v : R) (trc : string) : rgb :=
  (* derive hue in 60deg sectors *)
  let h := h / 60 in
  let hSector := pyint h in
  (* scale saturation and value range from 0-100 to 0-1 *)
  let s := s / 100 in
  let v := v / 100 in
  (* max(R,G,B) = value
     chroma = saturation * value
     min(R,G,B) = max(R,G,B) - chroma *)
  let m := v * (1 - s) in
  (* calculate deviation from closest secondary color with range of -0.999... to 0.999... *)
  let d := if negb (hSector mod 2 =? 0)%Z
           then h - IZR hSector else 1 - (h - IZR hSector) in
  (* med(R,G,B) = max(R,G,B) - (|deviation| * chroma) *)
  let x := v * (1 - d * s) in
  hSectorToRgbF hSector v m x trc.

Definition hslToRgbF (h s l : R) (trc : string) : rgb :=
  (* derive hue in 60deg sectors *)
  let h := h / 60 in
  let hSector := pyint h in
  (* scale saturation and value range from 0-100 to 0-1 *)
  let s := s / 100 in
  let l := l / 100 in
  (* max(R,G,B) = s(l) + l if l<0.5 else s(1 - l) + l *)
  let v := if Rlt_dec l 0.5 then l * (1 + s) else s * (1 - l) + l in
  let m := 2 * l - v in
  (* calculate deviation from closest secondary color with range of -0.999... to 0.999... *)
  let d := if negb (hSector mod 2 =? 0)%Z
           then h - IZR hSector else 1 - (h - IZR hSector) in
  let x := v - d * (v - m) in
  hSectorToRgbF hSector v m x trc.

Definition hcyToRgbF (h c y u : R) (trc : string) (luma : bool) : exc rgb :=
  (* derive hue in 60deg sectors *)
  let h := h / 60 in
  let hSector := pyint h in
  (* pass in y and u as -1 for max chroma conversions *)
  let y := if Req_dec_T y (-1) then y else y / 100 (* scale luma to 1 *) in
  if (if Req_dec_T c 0 then true else false)
     || (if Req_dec_T y 0 then true else false)
     || (if Req_dec_T y 1 then true else false)
  then
    (* if y is always luma, convert to linear *)
    let y := if (luma && is_linear trc)%bool then componentToLinear y else y in
    (* luma coefficients add up to 1 *)
    Ok (y, y, y)
  else
    (* calculate deviation from closest primary color with range of -0.999... to 0.999... *)
    let d := if (hSector mod 2 =? 0)%Z
             then h - IZR hSector else 1 - (h - IZR hSector) in
    (* calculate luma coefficient of hue *)
    let yHue :=
      if (hSector =? 1)%Z then Y709G + Y709R * d        (* between yellow and green *)
      else if (hSector =? 2)%Z then Y709G + Y709B * d   (* between green and cyan *)
      else if (hSector =? 3)%Z then Y709B + Y709G * d   (* between cyan and blue *)
      else if (hSector =? 4)%Z then Y709B + Y709R * d   (* between blue and magenta *)
      else if (hSector =? 5)%Z then Y709R + Y709B * d   (* between magenta and red *)
      else Y709R + Y709G * d                            (* between red and yellow *) in
    (* when chroma is at maximum, y = luma coefficient of hue *)
    let y := if Req_dec_T y (-1) then yHue else y in
    (* it is not always possible for chroma to be constant when adjusting hue or luma
       adjustment have to either clip chroma or have consistent saturation instead *)
    cMax <- (if Rle_dec y yHue then fdiv y yHue else fdiv (1 - y) (1 - yHue)) ;;
    c <- (if Req_dec_T u (-1) then
            (* scale chroma to 1 before comparing *)
            let c := c / 100 in
            (* clip chroma to new limit *)
            Ok (if Rlt_dec cMax c then cMax else c)
          else
            (* scale chroma to hue or luma adjustment *)
            s <- (if Req_dec_T u 0 then Ok 0 else fdiv c u) ;;
            Ok (s * cMax)) ;;
    (* luma = max(R,G,B) * yHue + min(R,G,B) * (1 - yHue)
       calculate min(R,G,B) based on the equation above *)
    let m := y - c * yHue in
    (* med(R,G,B) = min(R,G,B) + (|deviation| * chroma) *)
    let x := y - c * (yHue - d) in
    (* max(R,G,B) = min(R,G,B) + chroma *)
    let v := y + c * (1 - yHue) in
    (* if y is always luma, hsector to rgbf needs trc param *)
    if luma then Ok (hSectorToRgbF hSector v m x trc)
    else Ok (hSectorToRgbF hSector v m x "sRGB").

(** ** OKHCL, OKHSV and OKHSL *)

Definition rgbFToOkhcl (r g b h : R) (trc : string) : exc (R * R * R * R) :=
  (* if rgb not linear, convert to linear for oklab conversion *)
  let '(r, g, b) :=
    if is_sRGB trc
    then (componentToLinear r, componentToLinear g, componentToLinear b)
    else (r, g, b) in
  '(okL, okA, okB) <- linearToOklab r g b ;;
  let l := okL in
  let ch := cartesianToPolar okA okB in
  let c := fst ch in
  (* chroma of neutral colors will not be exactly 0 due to floating point errors *)
  '(c, h, u) <-
    (if Rlt_dec c 0.000001 then
       (* use current hue to calulate chroma limit in sRGB gamut for neutral colors *)
       let ab := polarToCartesian 1 h in
       cuspLC <- findCuspLC (fst ab) (snd ab) ;;
       u <- findGamutIntersection (fst ab) (snd ab) l 1 l (Some cuspLC) ;;
       u <- fdiv u (snd cuspLC) ;;
       Ok (0, h, u)
     else
       (* gamut intersection jumps for parts of blue *)
       let h := if (if Rlt_dec 264.052 (snd ch) then true else false)
                   && (if Rlt_dec (snd ch) 264.06 then true else false)
                then 264.06 else snd ch in
       (* a and b must be normalized to c = 1 to calculate chroma limit in sRGB gamut *)
       a_ <- fdiv okA c ;;
       b_ <- fdiv okB c ;;
       cuspLC <- findCuspLC a_ b_ ;;
       u <- findGamutIntersection a_ b_ l 1 l (Some cuspLC) ;;
       let c := if Rlt_dec u c then u else c in
       u <- fdiv u (snd cuspLC) ;;
       c <- fdiv c (snd cuspLC) ;;
       Ok (c, h, u)) ;;
  l <- toe l ;;
  Ok (pyround h 2, pyround (c * 100) 3, pyround (l * 100) 2, pyround (u * 100) 3).


Definition rgbFToOkhsv (r g b : R) (trc : string) : exc rgb :=
  (* if rgb not linear, convert to linear for oklab conversion *)
  let '(r, g, b) :=
    if is_sRGB trc
    then (componentToLinear r, componentToLinear g, componentToLinear b)
    else (r, g, b) in
  '(okL, okA, okB) <- linearToOklab r g b ;;
  let l := okL in
  let ch := cartesianToPolar okA okB in
  let c := fst ch in
  (* chroma of neutral colors will not be exactly 0 due to floating point errors *)
  if Rlt_dec c 0.000001 then
    tl <- toe l ;;
    Ok (0, 0, pyround (tl * 100) 2)
  else
    (* gamut intersection jumps for parts of blue *)
    let h := if (if Rlt_dec 264.052 (snd ch) then true else false)
                && (if Rlt_dec (snd ch) 264.06 then true else false)
             then 264.06 else snd ch in
    (* a and b must be normalized to c = 1 to calculate chroma limit in sRGB gamut *)
    a_ <- fdiv okA c ;;
    b_ <- fdiv okB c ;;
    cuspLC <- findCuspLC a_ b_ ;;
    st <- cuspToST cuspLC ;;
    let sMax := fst st in
    let tMax := snd st in
    let s0 := 0.5 in
    q <- fdiv s0 sMax ;;
    let k := 1 - q in
    (* first we find L_v, C_v, L_vt and C_vt *)
    t <- fdiv tMax (c + l * tMax) ;;
    let l_v := t * l in
    let c_v := t * c in
    l_vt <- toeInv l_v ;;
    c_vt <- fdiv (c_v * l_vt) l_v ;;
    (* we can then use these to invert the step that compensates for the toe
       and the curved top part of the triangle: *)
    let '(sr, sg, sb) := oklabToLinear l_vt (a_ * c_vt) (b_ * c_vt) in
    q <- fdiv 1 (max3 sr sg sb) ;;
    scaleL <- pypow q (1 / 3) ;;
    q <- fdiv l scaleL ;;
    l <- toe q ;;
    (* we can now compute v and s: *)
    v <- fdiv l l_v ;;
    s <- fdiv ((s0 + tMax) * c_v) ((tMax * s0) + tMax * k * c_v) ;;
    let s := if Rlt_dec 1 s then 1.0 else s in
    Ok (pyround h 2, pyround (s * 100) 2, pyround (v * 100) 2).

Definition okhsvToRgbF (h s v : R) (trc : string) : exc rgb :=
  (* scale saturation and value range from 0-100 to 0-1 *)
  let s := s / 100 in
  let v := v / 100 in
  if Req_dec_T v 0 then Ok (0, 0, 0)
  else
    '(r, g, b) <-
      (if Req_dec_T s 0 then
         l <- toeInv v ;;
         Ok (oklabToLinear l 0 0)
       else
         let ab := polarToCartesian 1 h in
         cuspLC <- findCuspLC (fst ab) (snd ab) ;;
         st <- cuspToST cuspLC ;;
         let sMax := fst st in
         let tMax := snd st in
         let s0 := 0.5 in
         q <- fdiv s0 sMax ;;
         let k := 1 - q in
         (* first we compute L and V as if the gamut is a perfect triangle:
            L, C when v==1: *)
         q <- fdiv (s * s0) (s0 + tMax - tMax * k * s) ;;
         let l_v := 1 - q in
         c_v <- fdiv (s * tMax * s0) (s0 + tMax - tMax * k * s) ;;
         let l := v * l_v in
         let c := v * c_v in
         (* then we compensate for both toe and the curved top part of the triangle: *)
         l_vt <- toeInv l_v ;;
         c_vt <- fdiv (c_v * l_vt) l_v ;;
         l_new <- toeInv l ;;
         q <- fdiv l_new l ;;
         let c := c * q in
         let l := l_new in
         let '(sr, sg, sb) := oklabToLinear l_vt (fst ab * c_vt) (snd ab * c_vt) in
         q <- fdiv 1 (max3 sr sg sb) ;;
         scaleL <- pypow q (1 / 3) ;;
         let l := l * scaleL in
         let c := c * scaleL in
         Ok (oklabToLinear l (fst ab * c) (snd ab * c))) ;;
    (* perform transfer functions for components if output to sRGB *)
    Ok (toDisplay r trc, toDisplay g trc, toDisplay b trc).

Definition okhslToRgbF (h s l : R) (trc : string) : exc rgb :=
  (* scale saturation and lightness range from 0-100 to 0-1 *)
  let s := s / 100 in
  let l := l / 100 in
  if (if Req_dec_T l 0 then true else false)
     || (if Req_dec_T l 1 then true else false)
  then Ok (l, l, l)
  else
    let ab := polarToCartesian 1 h in
    l <- toeInv l ;;
    c <- (if Req_dec_T s 0 then Ok 0
          else
            '(c0, cMid, cMax) <- getCs l (fst ab) (snd ab) ;;
            (* Interpolate the three values for C so that:
               At s=0: dC/ds = C_0, C=0
               At s=0.8: C=C_mid
               At s=1.0: C=C_max *)
            let mid := 0.8 in
            let midInv := 1.25 in
            if Rlt_dec s mid then
              let t := midInv * s in
              let k1 := mid * c0 in
              q <- fdiv k1 cMid ;;
              let k2 := 1 - q in
              fdiv (t * k1) (1 - k2 * t)
            else
              let t := (s - mid) / (1 - mid) in
              k1 <- fdiv ((1 - mid) * cMid * cMid * midInv * midInv) c0 ;;
              q <- fdiv k1 (cMax - cMid) ;;
              let k2 := 1 - q in
              q <- fdiv (t * k1) (1 - k2 * t) ;;
              Ok (cMid + q)) ;;
    let '(r, g, b) := oklabToLinear l (fst ab * c) (snd ab * c) in
    (* perform transfer functions for components if output to sRGB *)
    Ok (toDisplay r trc, toDisplay g trc, toDisplay b trc).

(** ** HCY over binary64

    [hcyToRgbF] and what it calls, once more, over the kernel's binary64
    floats: the same operations in the same order, each rounded as
    Python rounds it.  [None] stands for a raised exception. *)

Module F64.

Local Open Scope float_scope.

Definition Y709R : float := 0.2126.
Definition Y709G : float := 0.7152.
Definition Y709B : float := 0.0722.
Definition ALPHA : float := 0.055.
Definition GAMMA : float := 2.4.
Definition PHI : float := 12.92.

(** [int(x)]: truncation toward zero; it raises on infinities and NaN *)
Definition pyint (x : float) : option Z :=
  match Prim2SF x with
  | S754_zero _ => Some 0%Z
  | S754_finite s m e =>
      let v := if (0 <=? e)%Z then (Z.pos m * 2 ^ e)%Z
               else (Z.pos m / 2 ^ (- e))%Z in
      Some (if s then (- v)%Z else v)
  | S754_infinity _ => None
  | S754_nan => None
  end.

(** The float of an integer (exact below [2 ** 53]) *)
Definition of_int (z : Z) : float :=
  match z with
  | Z.neg p => - of_uint63 (Uint63.of_Z (Z.pos p))
  | _ => of_uint63 (Uint63.of_Z z)
  end.

(** [x / y] *)
Definition fdiv (x y : float) : option float :=
  if y =? 0 then None else Some (x / y).

Definition in01 (x : float) : bool := (0 <=? x) && (x <=? 1).

Section Libm.

(** [x ** y], which is not an operation of the kernel's floats *)
Variable pow : float -> float -> float.

Definition componentToLinear (c : float) : float :=
  if 0.04045 <? c then pow ((c + ALPHA) / (1 + ALPHA)) GAMMA else c / PHI.

Definition hSectorToRgbF (hSector : Z) (v m x : float) (trc : string)
  : float * float * float :=
  let '(r, g, b) :=
    if (hSector =? 1)%Z then (x, v, m)
    else if (hSector =? 2)%Z then (m, v, x)
    else if (hSector =? 3)%Z then (m, x, v)
    else if (hSector =? 4)%Z then (x, m, v)
    else if (hSector =? 5)%Z then (v, m, x)
    else (v, x, m) in
  if is_sRGB trc then (r, g, b)
  else
    let r := componentToLinear r in
    let g := componentToLinear g in
    let b := componentToLinear b in
    (r, g, b).

Definition hcyToRgbF (h c y u : float) (trc : string) (luma : bool)
  : option (float * float * float) :=
  let h := h / 60 in
  match pyint h with
  | None => None
  | Some hSector =>
    let y := if negb (y =? -1) then y / 100 else y in
    if (c =? 0) || (y =? 0) || (y =? 1) then
      let y := if (luma && is_linear trc)%bool then componentToLinear y else y in
      Some (y, y, y)
    else
      let d := if (hSector mod 2 =? 0)%Z
               then h - of_int hSector else 1 - (h - of_int hSector) in
      let yHue :=
        if (hSector =? 1)%Z then Y709G + Y709R * d
        else if (hSector =? 2)%Z then Y709G + Y709B * d
        else if (hSector =? 3)%Z then Y709B + Y709G * d
        else if (hSector =? 4)%Z then Y709B + Y709R * d
        else if (hSector =? 5)%Z then Y709R + Y709B * d
        else Y709R + Y709G * d in
      let y := if y =? -1 then yHue else y in
      match (if y <=? yHue then fdiv y yHue else fdiv (1 - y) (1 - yHue)) with
      | None => None
      | Some cMax =>
        match (if u =? -1 then
                 let c := c / 100 in
                 Some (if cMax <? c then cMax else c)
               else
                 match (if u =? 0 then Some 0 else fdiv c u) with
                 | Some s => Some (s * cMax)
                 | None => None
                 end) with
        | None => None
        | Some c =>
          let m := y - c * yHue in
          let x := y - c * (yHue - d) in
          let v := y + c * (1 - yHue) in
          if luma then Some (hSectorToRgbF hSector v m x trc)
          else Some (hSectorToRgbF hSector v m x "sRGB")
        end
      end
  end.

End Libm.

End F64.

(** * Vocabulary of the specification *)

Definition in01 (x : R) : Prop := 0 <= x <= 1.

Definition rgb01 (c : rgb) : Prop :=
  in01 (fst (fst c)) /\ in01 (snd (fst c)) /\ in01 (snd c).

(** [-1 if n < 0 else 1] *)
Definition sign_of (n : R) : R := if Rlt_dec n 0 then -1 else 1.

(** [floor(|n| * 10^d) / 10^d], carrying the sign of [n] *)
Definition truncated (n : R) (d : Z) : R :=
  IZR (floor (Rabs n * IZR (10 ^ d))) / IZR (10 ^ d) * sign_of n.

(** What [hSectorToRgbF] does to each component: nothing for sRGB, the
    decoding to linear light otherwise. *)
Definition trcOut (trc : string) (c : R) : R :=
  if is_sRGB trc then c else componentToLinear c.

Definition permutes (c : rgb) (v m x : R) : Prop :=
  c = (x, v, m) \/ c = (m, v, x) \/ c = (m, x, v)
  \/ c = (x, m, v) \/ c = (v, m, x) \/ c = (v, x, m).

(** The luma [hcyToRgbF] works with: [y / 100], unless [y] is the flag -1. *)
Definition scaledLuma (y : R) : R := if Req_dec_T y (-1) then y else y / 100.

(** Every character, for the properties checked character by character. *)
Definition all_ascii : list ascii := map ascii_of_nat (seq 0 256).

(** [hex(k)[2:].zfill(2).upper()], as [rgbFToHexS] writes a channel *)
Definition hex2 (k : Z) : string :=
  PyStr.upper (PyStr.zfill (PyStr.slice_from (PyStr.hex k) 2) 2).

(** A character [int(s, 16)] can skip or read as a sign. *)
Definition is_sign (c : ascii) : bool := (Ascii.eqb c "+" || Ascii.eqb c "-")%bool.

(** A character that [int(s, 16)] reads or skips: a hex digit, a sign or
    white space. *)
Definition readable (c : ascii) : bool :=
  (PyStr.is_hex c || is_sign c || PyStr.is_space c)%bool.

(** The value of a hex digit, 0 for any other character. *)
Definition hexval (c : ascii) : Z :=
  match PyStr.hex_value c with Some v => v | None => 0%Z end.

(** Equality of the results of [int(s, 16)] *)
Definition exc_Z_eqb (x y : exc Z) : bool :=
  match x, y with
  | Ok a, Ok b => (a =? b)%Z
  | Raise ValueError, Raise ValueError => true
  | _, _ => false
  end.

(** [hex2 k] is two hex digits that read back as [k]. *)
Definition hex2_reads_back (k : Z) : bool :=
  match hex2 k with
  | String c1 (String c2 EmptyString) =>
      (PyStr.is_hex c1 && PyStr.is_hex c2
       && (16 * hexval c1 + hexval c2 =? k)%Z)%bool
  | _ => false
  end.

(** A character that ends a unit: [deg], [grad], [rad], [turn]. *)
Definition ends_unit (c : ascii) : bool :=
  (Ascii.eqb c "g" || Ascii.eqb c "d" || Ascii.eqb c "n")%bool.

(** The angle [angleStoDeg] returns for an angle of [d] degrees:
    [(d % 360) + 360 if d < 0 else d]. *)
Definition returned_angle (d : R) : R :=
  if Rlt_dec d 0 then fmod d 360 + 360 else d.

(** [angle_token a d]: the token [a] is a finite number, with one of the
    units or none, and stands for [d] degrees. *)
Inductive angle_token : string -> R -> Prop :=
| angle_deg (num : string) (v : R) :
    pyfloat num = Ok v -> angle_token (num ++ "deg") v
| angle_grad (num : string) (v : R) :
    pyfloat num = Ok v -> angle_token (num ++ "grad") (v / 10 * 9)
| angle_rad (num : string) (v : R) :
    pyfloat num = Ok v -> angle_token (num ++ "rad") (degrees v)
| angle_turn (num : string) (v : R) :
    pyfloat num = Ok v -> angle_token (num ++ "turn") (v * 360)
| angle_bare (num : string) (v : R) :
    pyfloat num = Ok v -> angle_token num v.

(** The text [angleStoDeg] passes to [float]: the token without its unit. *)
Definition numeric_part (a : string) : string :=
  if PyStr.endswith a "deg" then PyStr.drop_last a 3
  else if PyStr.endswith a "grad" then PyStr.drop_last a 4
  else if PyStr.endswith a "rad" then PyStr.drop_last a 3
  else if PyStr.endswith a "turn" then PyStr.drop_last a 4
  else a.

(** The tokens of an [oklab(...)] or [oklch(...)] text:
    [syntax[5:].strip("( )").split()]. *)
Definition tokens (syntax : string) : list string :=
  PyStr.split (PyStr.strip paren_or_space (PyStr.slice_from syntax 5)).

(** The number a token stands for: a percentage of [scale], or the number
    as it is. *)
Definition component (tok : string) (scale : R) : exc R :=
  if PyStr.endswith tok "%"
  then x <- pyfloat (PyStr.drop_last tok 1) ;; Ok (x / scale)
  else pyfloat tok.

(** The clamped triple that ends a conversion from Oklab. *)
Definition display (c : rgb) (trc : string) : rgb :=
  let '(r, g, b) := c in (toDisplay r trc, toDisplay g trc, toDisplay b trc).

(** The Oklab coordinates of an RGB triple, as every "rgbFTo..." function
    of the Oklab-based models starts by computing them. *)
Definition oklabOf (r g b : R) (trc : string) : exc rgb :=
  let '(r, g, b) :=
    if is_sRGB trc
    then (componentToLinear r, componentToLinear g, componentToLinear b)
    else (r, g, b) in
  linearToOklab r g b.

(** A neutral colour: the magnitude of its chroma is below 1e-6. *)
Definition neutral (lab : rgb) : Prop :=
  fst (cartesianToPolar (snd (fst lab)) (snd lab)) < 0.000001.



(** * The rest of the [Convert] class

    The conversions from RGB to HSV, HSL, HCY and OKHSL, the change of
    transfer curve and the parser that tries each notation in turn.  The
    two functions that write [oklab(...)] and [oklch(...)] texts format
    floats with [repr], which has no counterpart on real numbers; they
    are not embedded. *)

(** [x < y], [x <= y] and [x == y] as conditions *)
Definition Rltb (x y : R) : bool := if Rlt_dec x y then true else false.
Definition Rleb (x y : R) : bool := if Rle_dec x y then true else false.
Definition Reqb (x y : R) : bool := if Req_dec_T x y then true else false.

(** [settings.NOTATION] *)
Definition NOTATION : list string := ["HEX"; "OKLAB"; "OKLCH"].

(** [NOTATION[i]], for the indices the code writes: 0, 1 and 2 *)
Definition NOTATION_at (i : nat) : string := nth i NOTATION "".


(** The hue in 60 degree sectors, as [rgbFToHsv] and [rgbFToHsl] find it
    with the same three tests.  [None]: no test held and [h] stays
    unbound, which needs a maximum that is none of its arguments (a NaN). *)
Definition sectorHue (r g b v c : R) : exc (option R) :=
  if Reqb v r then
    (* red is 0, range of hues that are predominantly red is -0.999... to 0.999... *)
    q <- fdiv (g - b) c ;; Ok (Some (fmod q 6))
  else if Reqb v g then
    (* green is 2, range of hues that are predominantly green is 1.000... to 2.999... *)
    q <- fdiv (b - r) c ;; Ok (Some (q + 2))
  else if Reqb v b then
    (* blue is 4, range of hues that are predominantly blue is 3.000... to 4.999... *)
    q <- fdiv (r - g) c ;; Ok (Some (q + 4))
  else Ok None.

Definition rgbFToHsv (r g b : R) (trc : string) : exc rgb :=
  (* if rgb is linear, convert to sRGB *)
  let '(r, g, b) :=
    if is_linear trc
    then (componentToSRGB r, componentToSRGB g, componentToSRGB b)
    else (r, g, b) in
  (* value is equal to max(R,G,B) while min(R,G,B) determines saturation *)
  let v := max3 r g b in
  let m := min3 r g b in
  (* chroma is the colorfulness of the color compared to the neutral color of equal value *)
  let c := v - m in
  if Reqb c 0 then
    (* hue cannot be determined if the color is neutral *)
    Ok (0, 0, pyround (v * 100) 2)
  else
    h <- sectorHue r g b v c ;;
    (* saturation is the ratio of chroma of the color to the maximum chroma of equal value *)
    s <- fdiv c v ;;
    match h with
    | Some h => Ok (pyround (h * 60) 2, pyround (s * 100) 2, pyround (v * 100) 2)
    | None => Raise NotReal
    end.


Definition rgbFToHcy (r g b h : R) (trc : string) (luma : bool)
  : exc (R * R * R * R) :=
  (* if y should always be luma, convert to sRGB *)
  let '(r, g, b) :=
    if (luma && is_linear trc)%bool
    then (componentToSRGB r, componentToSRGB g, componentToSRGB b)
    else (r, g, b) in
  (* y can be luma or relative luminance depending on rgb format *)
  let y := Y709R * r + Y709G * g + Y709B * b in
  let v := max3 r g b in
  let m := min3 r g b in
  let c := v - m in
  let yHue := 0 in
  (* if color is neutral, use previous hue to calculate luma coefficient of hue
     max(R,G,B) coefficent + med(R,G,B) coefficient * deviation from max(R,G,B) hue *)
  '(h, yHue) <-
    (if (negb (Reqb c 0) && Reqb v g
         || Reqb c 0 && (Rleb 60 h && Rleb h 180))%bool then
       h <- (if negb (Reqb c 0) then q <- fdiv (b - r) c ;; Ok (q + 2)
             else Ok (h / 60)) ;;
       if (Rleb 1 h && Rleb h 2)%bool then        (* between yellow and green *)
         let d := h - 1 in
         (* luma coefficient of hue ranges from 0.9278 to 0.7152 *)
         Ok (h, Y709G + Y709R * (1 - d))
       else if (Rltb 2 h && Rleb h 3)%bool then   (* between green and cyan *)
         let d := h - 2 in
         (* luma coefficient of hue ranges from 0.7152 to 0.7874 *)
         Ok (h, Y709G + Y709B * d)
       else Ok (h, yHue)
     else if (negb (Reqb c 0) && Reqb v b
              || Reqb c 0 && (Rltb 180 h && Rleb h 300))%bool then
       h <- (if negb (Reqb c 0) then q <- fdiv (r - g) c ;; Ok (q + 4)
             else Ok (h / 60)) ;;
       if (Rltb 3 h && Rleb h 4)%bool then        (* between cyan and blue *)
         let d := h - 3 in
         (* luma coefficient of hue ranges from 0.7874 to 0.0722 *)
         Ok (h, Y709B + Y709G * (1 - d))
       else if (Rltb 4 h && Rleb h 5)%bool then   (* between blue and magenta *)
         let d := h - 4 in
         (* luma coefficient of hue ranges from 0.0722 to 0.2848 *)
         Ok (h, Y709B + Y709R * d)
       else Ok (h, yHue)
     else if (negb (Reqb c 0) && Reqb v r
              || Reqb c 0 && (Rltb 300 h || Rltb h 60))%bool then
       h <- (if negb (Reqb c 0) then q <- fdiv (g - b) c ;; Ok (fmod q 6)
             else Ok (h / 60)) ;;
       if (Rltb 5 h && Rleb h 6)%bool then        (* between magenta and red *)
         let d := h - 5 in
         (* luma coefficient of hue ranges from 0.2848 to 0.2126 *)
         Ok (h, Y709R + Y709B * (1 - d))
       else if (Rleb 0 h && Rltb h 1)%bool then   (* between red and yellow *)
         let d := h in
         (* luma coefficient of hue ranges from 0.2126 to 0.9278 *)
         Ok (h, Y709R + Y709G * d)
       else Ok (h, yHue)
     else Ok (h, yHue)) ;;
  (* calculate upper limit of chroma for hue and luma pair *)
  u <- (if Rle_dec y yHue then fdiv y yHue else fdiv (1 - y) (1 - yHue)) ;;
  Ok (pyround (h * 60) 2, pyround (c * 100) 3, pyround (y * 100) 2,
      pyround (u * 100) 3).

Definition rgbFToOkhsl (r g b : R) (trc : string) : exc rgb :=
  (* if rgb not linear, convert to linear for oklab conversion *)
  let '(r, g, b) :=
    if is_sRGB trc
    then (componentToLinear r, componentToLinear g, componentToLinear b)
    else (r, g, b) in
  '(okL, okA, okB) <- linearToOklab r g b ;;
  let l := okL in
  let ch := cartesianToPolar okA okB in
  let s := 0 in
  let c := fst ch in
  (* chroma of neutral colors will not be exactly 0 due to floating point errors *)
  s <- (if Rleb 0.000001 c then
          a_ <- fdiv okA c ;;
          b_ <- fdiv okB c ;;
          '(c0, cMid, cMax) <- getCs l a_ b_ ;;
          (* Inverse of the interpolation in okhsl_to_srgb: *)
          let mid := 0.8 in
          let midInv := 1.25 in
          if Rltb c cMid then
            let k1 := mid * c0 in
            q <- fdiv k1 cMid ;;
            let k2 := 1 - q in
            t <- fdiv c (k1 + k2 * c) ;;
            Ok (t * mid)
          else
            k1 <- fdiv ((1 - mid) * cMid * cMid * midInv * midInv) c0 ;;
            q <- fdiv k1 (cMax - cMid) ;;
            let k2 := 1 - q in
            t <- fdiv (c - cMid) (k1 + k2 * (c - cMid)) ;;
            Ok (mid + (1 - mid) * t)
        else Ok s) ;;
  (* gamut intersection jumps for parts of blue *)
  let h := if (Rltb 264.052 (snd ch) && Rltb (snd ch) 264.06)%bool
           then 264.06 else snd ch in
  l <- toe l ;;
  Ok (pyround h 2, pyround (s * 100) 2, pyround (l * 100) 2).

(** ** The parser of any notation *)

(** One of the three parsers, as [parseAnything] holds them in its list *)
Definition parser : Type := string -> string -> exc (option rgb).

(** [s.endswith(("deg", "grad", "rad", "turn"))] *)
Definition endswith_any (s : string) (suffixes : list string) : bool :=
  existsb (PyStr.endswith s) suffixes.

(** The loop that ends [parseAnything]: the first attempt that gives a
    colour, with its notation.  A triple is true as a condition. *)
Fixpoint first_result (attempt : list (parser * string * string))
    (trc : string) : exc (option (rgb * string)) :=
  match attempt with
  | [] => Ok None
  | (fn, val, notation) :: rest =>
      res <- fn val trc ;;
      match res with
      | Some res => Ok (Some (res, notation))
      | None => first_result rest trc
      end
  end.

(** The list [attempt] that [parseAnything] builds before it runs it. *)
Definition attempts (syntax curNotation : string)
  : list (parser * string * string) :=
  let len := String.length syntax in
  let attempt := [] in
  let attempt :=
    if ((len =? 3)%nat || (len =? 6)%nat)%bool
    then (attempt ++ [(hexSToRgbF, ("#" ++ syntax)%string, NOTATION_at 0)])%list
    else attempt in
  let attempt :=
    if (((len =? 4)%nat || (len =? 7)%nat)
        && String.eqb (PyStr.index syntax 0) "#")%bool
    then (attempt ++ [(hexSToRgbF, syntax, NOTATION_at 0)])%list
    else attempt in

  let attempt :=
    if PyStr.startswith syntax "oklab"
    then (attempt ++ [(oklabSToRgbF, syntax, NOTATION_at 1)])%list else attempt in
  let attempt :=
    if PyStr.startswith syntax "oklch"
    then (attempt ++ [(oklchSToRgbF, syntax, NOTATION_at 2)])%list else attempt in
  let attempt :=
    if String.eqb curNotation (NOTATION_at 1)
    then (attempt ++ [(oklabSToRgbF, syntax, NOTATION_at 1)])%list else attempt in
  let attempt :=
    if String.eqb curNotation (NOTATION_at 2)
    then (attempt ++ [(oklchSToRgbF, syntax, NOTATION_at 2)])%list else attempt in

  let components := PyStr.split syntax in
  match components with
  | [c0; c1; c2] =>
      let attempt :=
        if (String.eqb curNotation (NOTATION_at 1)
            || String.eqb (PyStr.index c1 0) "-")%bool
        then (attempt ++ [(oklabSToRgbF,
                           ("oklab(" ++ c0 ++ " " ++ c1 ++ " " ++ c2 ++ ")")%string,
                           NOTATION_at 1)])%list
        else attempt in
      let attempt :=
        if (String.eqb curNotation (NOTATION_at 2)
            || endswith_any c2 ["deg"; "grad"; "rad"; "turn"])%bool
        then (attempt ++ [(oklchSToRgbF,
                           ("oklch(" ++ c0 ++ " " ++ c1 ++ " " ++ c2 ++ ")")%string,
                           NOTATION_at 2)])%list
        else attempt in
      attempt
  | _ => attempt
  end.

Definition parseAnything (syntax trc curNotation : string)
  : exc (option (rgb * string)) :=
  first_result (attempts syntax curNotation) trc.

(** ** Vocabulary of the further properties *)

(** The luma of a triple, with the coefficients of ITU-R BT.709 *)
Definition luma709 (c : rgb) : R :=
  let '(r, g, b) := c in Y709R * r + Y709G * g + Y709B * b.

Definition max_of (c : rgb) : R := let '(r, g, b) := c in max3 r g b.
Definition min_of (c : rgb) : R := let '(r, g, b) := c in min3 r g b.



(** What [int(s, 16)] gives for two characters is between -15 and 255. *)
Definition int16_in_range (c1 c2 : ascii) : bool :=
  match PyStr.int16 (String c1 (String c2 "")) with
  | Ok k => ((-15 <=? k) && (k <=? 255))%Z
  | Raise _ => true
  end.

(** A channel of a hex code: the integer [k] over 255, decoded to linear
    light when the curve is not sRGB. *)
Definition hex_channel (trc : string) (k : Z) : R := trcOut trc (IZR k / 255.0).
(** * Verification *)

(** ** Basic facts *)



Lemma floor_bounds (x : R) : IZR (floor x) <= x < IZR (floor x) + 1.
Proof. unfold floor. destruct (base_Int_part x). lra. Qed.

Lemma floor_unique (x : R) (z : Z) : IZR z <= x < IZR z + 1 -> floor x = z.
Proof.
  intros H. unfold floor. symmetry. apply Int_part_spec. lra.
Qed.

Lemma floor_nonneg (x : R) : 0 <= x -> (0 <= floor x)%Z.
Proof.
  intros H. destruct (floor_bounds x) as [_ H1].
  apply Z.lt_succ_r. apply lt_IZR. rewrite succ_IZR. lra.
Qed.

Lemma pyint_nonneg (x : R) : 0 <= x -> pyint x = floor x.
Proof. intros H. unfold pyint. destruct (Rle_dec 0 x); [reflexivity | lra]. Qed.

Lemma fdiv_ok (x y : R) : y <> 0 -> fdiv x y = Ok (x / y).
Proof. intros H. unfold fdiv. destruct (Req_dec_T y 0); [contradiction | reflexivity]. Qed.




Lemma Rpower_unit_interval (b y : R) : 0 < b <= 1 -> 0 <= y -> 0 < Rpower b y <= 1.
Proof.
  intros [Hb0 Hb1] Hy. unfold Rpower. split; [apply exp_pos |].
  rewrite <- exp_0. 
  destruct (Rle_lt_or_eq_dec _ _ Hb1) as [Hlt | Heq].
  - assert (ln b < 0) by (rewrite <- ln_1; apply ln_increasing; assumption).
    destruct (Req_dec y 0) as [-> | Hy0].
    + rewrite Rmult_0_l. lra.
    + left. apply exp_increasing. nra.
  - subst b. rewrite ln_1, Rmult_0_r. lra.
Qed.

Lemma componentToLinear_in01 (c : R) : in01 c -> in01 (componentToLinear c).
Proof.
  unfold in01, componentToLinear, ALPHA, GAMMA, PHI. intros [H0 H1].
  destruct (Rlt_dec 0.04045 c).
  - assert (Hb : 0 < (c + 0.055) / (1 + 0.055) <= 1).
    { split.
      - apply Rdiv_lt_0_compat; lra.
      - unfold Rdiv. apply Rmult_le_reg_r with (1 + 0.055); [lra |].
        rewrite Rmult_assoc, Rinv_l by lra. lra. }
    destruct (Rpower_unit_interval _ 2.4 Hb ltac:(lra)). lra.
  - lra.
Qed.

(** ** roundZero *)



Lemma roundZero_int (n : R) (d : pyobj) (z : Z) :
  isinstance_int d = Some z -> (0 <= z)%Z -> roundZero n d = Ok (truncated n z).
Proof.
  intros Hd Hz. unfold roundZero, truncated, sign_of. rewrite Hd.
  destruct (z <? 0)%Z eqn:Hneg; [apply Z.ltb_lt in Hneg; lia |].
  destruct (z =? 0)%Z eqn:Hzero.
  - apply Z.eqb_eq in Hzero. subst z. simpl (10 ^ 0)%Z.
    rewrite Rmult_1_r. unfold Rdiv. rewrite Rinv_1, Rmult_1_r. reflexivity.
  - reflexivity.
Qed.






Example roundZero_example : roundZero (-3.14159) (PyInt 2) = Ok (-3.14).
Proof.
  rewrite (roundZero_int (-3.14159) (PyInt 2) 2%Z eq_refl ltac:(lia)). f_equal.
  unfold truncated, sign_of.
  replace (Rabs (-3.14159)) with 3.14159 by (rewrite Rabs_left; lra).
  rewrite (floor_unique _ 314%Z) by (simpl; lra).
  destruct (Rlt_dec (-3.14159) 0); [| lra]. simpl. lra.
Qed.

(** ** Monochrome colours *)



Lemma hSectorToRgbF_permutes (k : Z) (v m x : R) (trc : string) :
  exists r g b, permutes (r, g, b) v m x
    /\ hSectorToRgbF k v m x trc = (trcOut trc r, trcOut trc g, trcOut trc b).
Proof.
  unfold hSectorToRgbF, trcOut, permutes.
  destruct (k =? 1)%Z; [exists x, v, m; destruct (is_sRGB trc); tauto |].
  destruct (k =? 2)%Z; [exists m, v, x; destruct (is_sRGB trc); tauto |].
  destruct (k =? 3)%Z; [exists m, x, v; destruct (is_sRGB trc); tauto |].
  destruct (k =? 4)%Z; [exists x, m, v; destruct (is_sRGB trc); tauto |].
  destruct (k =? 5)%Z; [exists v, m, x; destruct (is_sRGB trc); tauto |].
  exists v, x, m; destruct (is_sRGB trc); tauto.
Qed.

Lemma hSectorToRgbF_neutral (k : Z) (w : R) (trc : string) :
  hSectorToRgbF k w w w trc = (trcOut trc w, trcOut trc w, trcOut trc w).
Proof.
  destruct (hSectorToRgbF_permutes k w w w trc) as (r & g & b & Hp & ->).
  unfold permutes in Hp.
  assert (r = w /\ g = w /\ b = w) as (-> & -> & ->)
    by (repeat destruct Hp as [Hp | Hp]; inversion Hp; auto).
  reflexivity.
Qed.



Lemma hsvToRgbF_neutral (h v : R) (trc : string) :
  hsvToRgbF h 0 v trc
  = (trcOut trc (v / 100), trcOut trc (v / 100), trcOut trc (v / 100)).
Proof.
  unfold hsvToRgbF.
  rewrite <- (hSectorToRgbF_neutral (pyint (h / 60)) (v / 100) trc).
  f_equal; unfold Rdiv; ring.
Qed.


Lemma hcyToRgbF_neutral (h y u : R) (trc : string) (luma : bool) :
  hcyToRgbF h 0 y u trc luma
  = let w := if (luma && is_linear trc)%bool
             then componentToLinear (scaledLuma y) else scaledLuma y in
    Ok (w, w, w).
Proof.
  unfold hcyToRgbF, scaledLuma.
  destruct (Req_dec_T 0 0) as [_ | H]; [| contradiction H; reflexivity].
  reflexivity.
Qed.

(** C8. With saturation 0, [hsvToRgbF] returns, for every hue, the
    neutral triple whose three components are the value scaled from
    percent (passed through the decoding to linear light when the transfer
    mode is not sRGB).  With chroma 0, [hcyToRgbF] returns, for every hue
    and limit, the neutral triple of the luma scaled from percent, as it is
    when the luma is already in the transfer mode of the result (decoded to
    linear light when it is a luma and the mode is linear). *)
Theorem monochrome_neutral :
  (forall h v : R,
      hsvToRgbF h 0 v "sRGB" = (v / 100, v / 100, v / 100))
  /\ (forall (h v : R) (trc : string),
        hsvToRgbF h 0 v trc
        = (trcOut trc (v / 100), trcOut trc (v / 100), trcOut trc (v / 100)))
  /\ (forall (h y u : R) (trc : string) (luma : bool),
        y <> -1 -> (luma && is_linear trc)%bool = false ->
        hcyToRgbF h 0 y u trc luma = Ok (y / 100, y / 100, y / 100))
  /\ (forall (h y u : R) (trc : string) (luma : bool),
        hcyToRgbF h 0 y u trc luma
        = Ok (if (luma && is_linear trc)%bool
              then (componentToLinear (scaledLuma y),
                    componentToLinear (scaledLuma y),
                    componentToLinear (scaledLuma y))
              else (scaledLuma y, scaledLuma y, scaledLuma y))).
Proof.
  split; [| split; [| split]].
  - intros h v. apply (hsvToRgbF_neutral h v "sRGB").
  - apply hsvToRgbF_neutral.
  - intros h y u trc luma Hy Hl. rewrite hcyToRgbF_neutral. cbv zeta.
    rewrite Hl. unfold scaledLuma.
    destruct (Req_dec_T y (-1)); [contradiction | reflexivity].
  - intros h y u trc luma. rewrite hcyToRgbF_neutral. cbv zeta.
    destruct (luma && is_linear trc)%bool; reflexivity.
Qed.

Lemma monochrome_neutral_witness :
  hsvToRgbF 200 0 40 "sRGB" = (40 / 100, 40 / 100, 40 / 100)
  /\ hcyToRgbF 200 0 40 (-1) "sRGB" true = Ok (40 / 100, 40 / 100, 40 / 100).
Proof.
  destruct monochrome_neutral as (H1 & _ & H3 & _). split.
  - apply H1.
  - apply H3; [lra | reflexivity].
Defined.

(** ** The range of the conversions to RGB *)








Lemma returns_bind {A B : Type} (P : B -> Prop) (m : exc A) (k : A -> exc B) :
  (forall a, returns P (k a)) -> returns P (bind m k).
Proof. intros H. destruct m; simpl; [apply H | exact I]. Qed.





(** ** The unit cube *)





(** ** Hex notation *)

Lemma all_ascii_complete (c : ascii) : In c all_ascii.
Proof.
  unfold all_ascii. rewrite <- (ascii_nat_embedding c).
  apply in_map. apply in_seq. pose proof (nat_ascii_bounded c). lia.
Qed.


(** The same for two characters, each taken among those a test selects. *)
Lemma forall_selected2 (f g : ascii -> bool) (P : ascii -> ascii -> bool) :
  forallb (fun c1 => forallb (P c1) (filter g all_ascii)) (filter f all_ascii) = true ->
  forall c1 c2, f c1 = true -> g c2 = true -> P c1 c2 = true.
Proof.
  intros H c1 c2 H1 H2. rewrite forallb_forall in H.
  assert (In1 : In c1 (filter f all_ascii))
    by (apply filter_In; split; [apply all_ascii_complete | exact H1]).
  specialize (H c1 In1). rewrite forallb_forall in H. apply H.
  apply filter_In; split; [apply all_ascii_complete | exact H2].
Qed.

Lemma exc_Z_eqb_eq (x y : exc Z) : exc_Z_eqb x y = true -> x = y.
Proof.
  destruct x as [a | []], y as [b | []]; simpl; try discriminate; try reflexivity.
  intros H. apply Z.eqb_eq in H. now subst.
Qed.


(** Two digits. *)
Lemma int16_two_digits (c1 c2 : ascii) :
  PyStr.is_hex c1 = true -> PyStr.is_hex c2 = true ->
  PyStr.int16 (String c1 (String c2 "")) = Ok (16 * hexval c1 + hexval c2)%Z.
Proof.
  intros H1 H2. apply exc_Z_eqb_eq. revert c1 c2 H1 H2.
  apply (forall_selected2 PyStr.is_hex PyStr.is_hex
           (fun c1 c2 => exc_Z_eqb (PyStr.int16 (String c1 (String c2 "")))
                                   (Ok (16 * hexval c1 + hexval c2)%Z))).
  vm_compute. reflexivity.
Qed.

(** A text that starts with a character that is neither a hex digit, a
    sign nor white space is not read. *)
Lemma int16_head_rejects (c : ascii) (r : string) :
  readable c = false -> PyStr.int16 (String c r) = Raise ValueError.
Proof.
  unfold readable, is_sign. intros H.
  apply orb_false_elim in H. destruct H as [H Hsp].
  apply orb_false_elim in H. destruct H as [Hhex Hsg].
  apply orb_false_elim in Hsg. destruct Hsg as [Hplus Hminus].
  assert (Hzero : Ascii.eqb c "0" = false).
  { destruct (Ascii.eqb c "0") eqn:E; [| reflexivity].
    apply Ascii.eqb_eq in E. subst c. discriminate Hhex. }
  unfold PyStr.int16. change (PyStr.chars (String c r)) with (c :: PyStr.chars r).
  cbn [PyStr.lstrip]. rewrite Hsp, Hplus, Hminus.
  destruct (PyStr.chars r) as [| c1 r']; rewrite ?Hzero; cbn [andb]; rewrite Hhex;
    reflexivity.
Qed.

(** After a character that is read, one that is not. *)
Lemma int16_second_rejects (c1 c2 : ascii) :
  readable c1 = true -> readable c2 = false ->
  PyStr.int16 (String c1 (String c2 "")) = Raise ValueError.
Proof.
  intros H1 H2. apply exc_Z_eqb_eq.
  assert (H2' : negb (readable c2) = true) by (now rewrite H2).
  revert c1 c2 H1 H2' H2.
  intros c1 c2 H1 H2' _. revert c1 c2 H1 H2'.
  apply (forall_selected2 readable (fun c => negb (readable c))
           (fun c1 c2 => exc_Z_eqb (PyStr.int16 (String c1 (String c2 "")))
                                   (Raise ValueError))).
  vm_compute. reflexivity.
Qed.


Lemma hex2_two_digits (k : Z) :
  (0 <= k <= 255)%Z ->
  exists c1 c2, hex2 k = String c1 (String c2 "")
    /\ PyStr.is_hex c1 = true /\ PyStr.is_hex c2 = true
    /\ (16 * hexval c1 + hexval c2)%Z = k.
Proof.
  intros Hk.
  assert (Hall : forallb hex2_reads_back (map Z.of_nat (seq 0 256)) = true)
    by (vm_compute; reflexivity).
  rewrite forallb_forall in Hall.
  assert (Hin : In k (map Z.of_nat (seq 0 256))).
  { rewrite <- (Z2Nat.id k) by lia. apply in_map. apply in_seq. lia. }
  specialize (Hall k Hin). unfold hex2_reads_back in Hall.
  destruct (hex2 k) as [| c1 [| c2 [| c3 r]]]; try discriminate.
  apply andb_prop in Hall. destruct Hall as [Hall H3].
  apply andb_prop in Hall. destruct Hall as [H1 H2].
  apply Z.eqb_eq in H3. now exists c1, c2.
Qed.

(** What [hexSToRgbF] makes of the long form. *)
Lemma hexSToRgbF_long (c1 c2 c3 c4 c5 c6 : ascii) (trc : string) :
  hexSToRgbF (String "#" (String c1 (String c2 (String c3
               (String c4 (String c5 (String c6 ""))))))) trc
  = except_ValueError
      (r <- PyStr.int16 (String c1 (String c2 "")) ;;
       g <- PyStr.int16 (String c3 (String c4 "")) ;;
       b <- PyStr.int16 (String c5 (String c6 "")) ;;
       Ok (Some (trcOut trc (IZR r / 255.0), trcOut trc (IZR g / 255.0),
                 trcOut trc (IZR b / 255.0))))
      (Ok None).
Proof.
  unfold hexSToRgbF, trcOut.
  cbn -[PyStr.int16 Rdiv IZR componentToLinear].
  destruct (PyStr.int16 (String c1 (String c2 ""))) as [r | e]; [| reflexivity].
  destruct (PyStr.int16 (String c3 (String c4 ""))) as [g | e]; [| reflexivity].
  destruct (PyStr.int16 (String c5 (String c6 ""))) as [b | e]; [| reflexivity].
  simpl. destruct (is_sRGB trc); reflexivity.
Qed.

(** What [hexSToRgbF] makes of the short form. *)
Lemma hexSToRgbF_short (c1 c2 c3 : ascii) (trc : string) :
  hexSToRgbF (String "#" (String c1 (String c2 (String c3 "")))) trc
  = except_ValueError
      (r <- PyStr.int16 (String c1 (String c1 "")) ;;
       g <- PyStr.int16 (String c2 (String c2 "")) ;;
       b <- PyStr.int16 (String c3 (String c3 "")) ;;
       Ok (Some (trcOut trc (IZR r / 255.0), trcOut trc (IZR g / 255.0),
                 trcOut trc (IZR b / 255.0))))
      (Ok None).
Proof.
  unfold hexSToRgbF, trcOut.
  cbn -[PyStr.int16 Rdiv IZR componentToLinear].
  destruct (PyStr.int16 (String c1 (String c1 ""))) as [r | e]; [| reflexivity].
  destruct (PyStr.int16 (String c2 (String c2 ""))) as [g | e]; [| reflexivity].
  destruct (PyStr.int16 (String c3 (String c3 ""))) as [b | e]; [| reflexivity].
  simpl. destruct (is_sRGB trc); reflexivity.
Qed.

Lemma channel_byte (r : R) :
  in01 r -> (0 <= pyint (r * 255) <= 255)%Z
            /\ Rabs (IZR (pyint (r * 255)) / 255.0 - r) <= 1 / 255.
Proof.
  unfold in01. intros [H0 H1].
  assert (Hp : 0 <= r * 255) by lra.
  rewrite pyint_nonneg by assumption.
  destruct (floor_bounds (r * 255)) as [Hlo Hhi].
  pose proof (floor_nonneg _ Hp) as Hf.
  split.
  - split; [assumption |]. apply le_IZR. lra.
  - apply Rabs_le. lra.
Qed.

(** C5. For red, green and blue in [[0,1]], reading back the hex string
    written for them (both in sRGB mode) gives a triple that differs from
    them by at most 1/255 in each channel. *)
Theorem hex_roundtrip (r g b : R) :
  in01 r -> in01 g -> in01 b ->
  exists r' g' b',
    hexSToRgbF (rgbFToHexS r g b "sRGB") "sRGB" = Ok (Some (r', g', b'))
    /\ Rabs (r' - r) <= 1 / 255
    /\ Rabs (g' - g) <= 1 / 255
    /\ Rabs (b' - b) <= 1 / 255.
Proof.
  intros Hr Hg Hb.
  destruct (channel_byte r Hr) as [Kr Er].
  destruct (channel_byte g Hg) as [Kg Eg].
  destruct (channel_byte b Hb) as [Kb Eb].
  destruct (hex2_two_digits _ Kr) as (r1 & r2 & Sr & Hr1 & Hr2 & Vr).
  destruct (hex2_two_digits _ Kg) as (g1 & g2 & Sg & Hg1 & Hg2 & Vg).
  destruct (hex2_two_digits _ Kb) as (b1 & b2 & Sb & Hb1 & Hb2 & Vb).
  exists (IZR (pyint (r * 255)) / 255.0), (IZR (pyint (g * 255)) / 255.0),
         (IZR (pyint (b * 255)) / 255.0).
  split; [| tauto].
  unfold rgbFToHexS, rgbFToInt8. change (is_sRGB "sRGB") with true. cbv iota beta.
  fold (hex2 (pyint (r * 255))). fold (hex2 (pyint (g * 255))).
  fold (hex2 (pyint (b * 255))).
  rewrite Sr, Sg, Sb. cbn [append].
  rewrite hexSToRgbF_long.
  rewrite (int16_two_digits r1 r2 Hr1 Hr2), (int16_two_digits g1 g2 Hg1 Hg2),
          (int16_two_digits b1 b2 Hb1 Hb2).
  rewrite Vr, Vg, Vb. reflexivity.
Qed.

Lemma hex_roundtrip_witness :
  exists r' g' b',
    hexSToRgbF (rgbFToHexS 0.5 0 1 "sRGB") "sRGB" = Ok (Some (r', g', b'))
    /\ Rabs (r' - 0.5) <= 1 / 255
    /\ Rabs (g' - 0) <= 1 / 255
    /\ Rabs (b' - 1) <= 1 / 255.
Proof.
  apply (hex_roundtrip 0.5 0 1); unfold in01; lra.
Defined.


(** A sign or white space passes for a digit of the long form: what
    [int(s, 16)] accepts is accepted. *)
Example hexSToRgbF_reads_signs :
  hexSToRgbF "#+1-2 3" "sRGB"
  = Ok (Some (IZR 1 / 255.0, IZR (-2) / 255.0, IZR 3 / 255.0)).
Proof. rewrite hexSToRgbF_long. reflexivity. Qed.

(** [int(s, 16)] raises nothing but [ValueError]. *)
Lemma int16_raises (s : string) (e : exn) :
  PyStr.int16 s = Raise e -> e = ValueError.
Proof.
  unfold PyStr.int16.
  repeat match goal with
         | |- context [match ?x with _ => _ end] => destruct x
         end; intros H; congruence.
Qed.

Lemma hexSToRgbF_length (s trc : string) :
  String.length s <> 4%nat -> String.length s <> 7%nat ->
  hexSToRgbF s trc = Ok None.
Proof.
  intros H4 H7. unfold hexSToRgbF.
  apply Nat.eqb_neq in H4. apply Nat.eqb_neq in H7. rewrite H4, H7.
  simpl. rewrite orb_true_r. reflexivity.
Qed.

Lemma hexSToRgbF_hash (s trc : string) :
  PyStr.startswith s "#" = false -> hexSToRgbF s trc = Ok None.
Proof. intros H. unfold hexSToRgbF. rewrite H. reflexivity. Qed.



(** ** Strings *)

Lemma length_app (s t : string) :
  String.length (s ++ t) = (String.length s + String.length t)%nat.
Proof. induction s as [| c s IH]; simpl; [reflexivity | now rewrite IH]. Qed.

Lemma substring_app_skip (s t : string) (k m : nat) :
  substring (String.length s + k) m (s ++ t) = substring k m t.
Proof. induction s as [| c s IH]; simpl; [reflexivity | exact IH]. Qed.

Lemma substring_app_take (s t : string) :
  substring 0 (String.length s) (s ++ t) = s.
Proof.
  induction s as [| c s IH]; simpl.
  - destruct t; reflexivity.
  - now rewrite IH.
Qed.

Lemma substring_split (s : string) (k : nat) :
  (k <= String.length s)%nat ->
  s = substring 0 k s ++ substring k (String.length s - k) s.
Proof.
  revert k. induction s as [| c s IH]; intros k Hk; simpl in Hk.
  - assert (k = 0%nat) by lia. subst k. reflexivity.
  - destruct k as [| k].
    + simpl. f_equal. clear IH Hk. induction s as [| d s IHs]; simpl.
      * reflexivity.
      * f_equal. exact IHs.
    + simpl. f_equal. apply IH. lia.
Qed.

Lemma endswith_app (s t p : string) :
  (String.length p <= String.length t)%nat ->
  PyStr.endswith (s ++ t) p = PyStr.endswith t p.
Proof.
  intros H. unfold PyStr.endswith. rewrite length_app.
  replace (String.length s + String.length t - String.length p)%nat
    with (String.length s + (String.length t - String.length p))%nat by lia.
  rewrite substring_app_skip.
  replace (String.length p <=? String.length s + String.length t)%nat with true
    by (symmetry; apply Nat.leb_le; lia).
  replace (String.length p <=? String.length t)%nat with true
    by (symmetry; apply Nat.leb_le; lia).
  reflexivity.
Qed.

Lemma drop_last_app (s t : string) :
  PyStr.drop_last (s ++ t) (String.length t) = s.
Proof.
  unfold PyStr.drop_last. rewrite length_app.
  replace (String.length s + String.length t - String.length t)%nat
    with (String.length s) by lia.
  apply substring_app_take.
Qed.

Lemma endswith_split (s p : string) :
  PyStr.endswith s p = true -> exists q, s = q ++ p.
Proof.
  unfold PyStr.endswith. intros H. apply andb_prop in H. destruct H as [Hle Heq].
  apply Nat.leb_le in Hle. apply String.eqb_eq in Heq.
  exists (substring 0 (String.length s - String.length p) s).
  pose proof (substring_split s (String.length s - String.length p) ltac:(lia))
    as Hsplit.
  replace (String.length s - (String.length s - String.length p))%nat
    with (String.length p) in Hsplit by lia.
  rewrite Heq in Hsplit. exact Hsplit.
Qed.

Lemma chars_app (s t : string) :
  PyStr.chars (s ++ t) = (PyStr.chars s ++ PyStr.chars t)%list.
Proof.
  unfold PyStr.chars. induction s as [| c s IH]; simpl; [reflexivity | now rewrite IH].
Qed.

(** *** The last character of a number *)

Lemma lstrip_last (p : ascii -> bool) (pre : list ascii) (c : ascii) :
  p c = false -> exists pre', PyStr.lstrip p (pre ++ [c]) = (pre' ++ [c])%list.
Proof.
  intros Hc. induction pre as [| d pre IH]; simpl.
  - rewrite Hc. now exists [].
  - destruct (p d); [exact IH | now exists (d :: pre)].
Qed.

Lemma rstrip_last (p : ascii -> bool) (pre : list ascii) (c : ascii) :
  p c = false -> PyStr.rstrip p (pre ++ [c]) = (pre ++ [c])%list.
Proof.
  intros Hc. unfold PyStr.rstrip. rewrite rev_app_distr. simpl. rewrite Hc.
  simpl. now rewrite rev_involutive.
Qed.

Lemma take_sign_last (pre : list ascii) (c : ascii) :
  is_sign c = false ->
  exists pre', snd (PyStr.take_sign (pre ++ [c])) = (pre' ++ [c])%list.
Proof.
  intros Hc. unfold is_sign in Hc. apply orb_false_elim in Hc. destruct Hc as [H1 H2].
  destruct pre as [| d pre]; simpl.
  - rewrite H1, H2. now exists [].
  - destruct (Ascii.eqb d "+"); [now exists pre |].
    destruct (Ascii.eqb d "-"); [now exists pre | now exists (d :: pre)].
Qed.

Lemma drop_underscores_last (cs : list ascii) :
  forall (prev : bool) (pre out : list ascii) (c : ascii),
    Ascii.eqb c "_" = false ->
    cs = (pre ++ [c])%list ->
    PyStr.drop_underscores prev cs = Some out ->
    exists pre', out = (pre' ++ [c])%list.
Proof.
  induction cs as [| d cs IH]; intros prev pre out c Hc Hcs H.
  - destruct pre; discriminate.
  - simpl in H. destruct (Ascii.eqb d "_") eqn:Hd.
    + destruct cs as [| d' cs']; [discriminate |].
      destruct (prev && PyStr.is_digit d')%bool; [| discriminate].
      destruct pre as [| x pre].
      * simpl in Hcs. inversion Hcs. 
      * simpl in Hcs. inversion Hcs; subst. now apply (IH false pre out c).
    + destruct (PyStr.drop_underscores (PyStr.is_digit d) cs) as [r |] eqn:Hr;
        [| discriminate].
      inversion H; subst out. clear H.
      destruct pre as [| x pre].
      * simpl in Hcs. inversion Hcs; subst. destruct r.
        -- now exists [].
        -- simpl in Hr. discriminate.
      * simpl in Hcs. inversion Hcs; subst.
        destruct (IH (PyStr.is_digit x) pre r c Hc eq_refl Hr) as [pre' ->].
        now exists (x :: pre').
Qed.

Lemma span_digits_last (pre : list ascii) (c : ascii) :
  PyStr.is_digit c = false ->
  exists pre', snd (PyStr.span_digits (pre ++ [c])) = (pre' ++ [c])%list.
Proof.
  intros Hc. induction pre as [| d pre IH]; simpl.
  - rewrite Hc. now exists [].
  - destruct (PyStr.is_digit d).
    + destruct (PyStr.span_digits (pre ++ [c])) as [ds rest]. exact IH.
    + now exists (d :: pre).
Qed.

Lemma exponent_last (pre : list ascii) (c : ascii) :
  PyStr.is_digit c = false -> is_sign c = false ->
  Ascii.eqb c "e" = false -> Ascii.eqb c "E" = false ->
  PyStr.exponent (pre ++ [c]) = None.
Proof.
  intros Hd Hs He HE. unfold PyStr.exponent.
  destruct pre as [| d pre]; simpl.
  - now rewrite He, HE.
  - destruct (Ascii.eqb d "e" || Ascii.eqb d "E")%bool; [| reflexivity].
    destruct (take_sign_last pre c Hs) as [p1 H1].
    destruct (PyStr.take_sign (pre ++ [c])) as [neg r]. simpl in H1. subst r.
    destruct (span_digits_last p1 c Hd) as [p2 H2].
    destruct (PyStr.span_digits (p1 ++ [c])) as [ds rest]. simpl in H2. subst rest.
    destruct ds; [reflexivity |]. destruct p2; reflexivity.
Qed.

Lemma read_float_last (s pre : string) (c : ascii) :
  ends_unit c = true -> s = pre ++ String c "" ->
  forall m e, PyStr.read_float s <> PyStr.Decimal m e.
Proof.
  intros Hc -> m e.
  assert (Hprops : PyStr.is_space c = false /\ PyStr.is_digit c = false
                   /\ is_sign c = false /\ Ascii.eqb c "_" = false
                   /\ Ascii.eqb c "." = false
                   /\ Ascii.eqb c "e" = false /\ Ascii.eqb c "E" = false).
  { unfold ends_unit in Hc.
    apply orb_prop in Hc. destruct Hc as [Hc | Hc];
      [apply orb_prop in Hc; destruct Hc as [Hc | Hc] |];
      apply Ascii.eqb_eq in Hc; subst c; repeat split; reflexivity. }
  destruct Hprops as (Hsp & Hdg & Hsg & Hus & Hdot & He & HE).
  unfold PyStr.read_float. rewrite chars_app. change (PyStr.chars (String c "")) with [c].
  destruct (lstrip_last PyStr.is_space (PyStr.chars pre) c Hsp) as [p1 ->].
  rewrite rstrip_last by assumption.
  destruct (take_sign_last p1 c Hsg) as [p2 H2].
  destruct (PyStr.take_sign (p1 ++ [c])) as [neg cs]. simpl in H2. subst cs.
  destruct (PyStr.is_nonfinite (p2 ++ [c])); [discriminate |].
  destruct (PyStr.drop_underscores false (p2 ++ [c])) as [cs |] eqn:Hdrop;
    [| discriminate].
  destruct (drop_underscores_last _ false p2 cs c Hus eq_refl Hdrop) as [p3 ->].
  destruct (span_digits_last p3 c Hdg) as [p4 H4].
  destruct (PyStr.span_digits (p3 ++ [c])) as [ip rest]. simpl in H4. subst rest.
  assert (Hfrac : exists fp p5,
             match (p4 ++ [c])%list with
             | c0 :: r => if Ascii.eqb c0 "." then PyStr.span_digits r
                          else ([], (p4 ++ [c])%list)
             | [] => ([], (p4 ++ [c])%list)
             end = (fp, (p5 ++ [c])%list)).
  { destruct p4 as [| d p4]; simpl.
    - rewrite Hdot. now exists [], [].
    - destruct (Ascii.eqb d ".").
      + destruct (span_digits_last p4 c Hdg) as [p5 H5].
        destruct (PyStr.span_digits (p4 ++ [c])) as [fp rest]. simpl in H5. subst rest.
        now exists fp, p5.
      + now exists [], (d :: p4). }
  destruct Hfrac as (fp & p5 & ->).
  rewrite exponent_last by assumption.
  destruct (ip ++ fp)%list; discriminate.
Qed.

Lemma pyfloat_last (s pre : string) (c : ascii) (v : R) :
  pyfloat s = Ok v -> s = pre ++ String c "" -> ends_unit c = false.
Proof.
  intros H Hs. destruct (ends_unit c) eqn:Hc; [| reflexivity].
  unfold pyfloat in H.
  destruct (PyStr.read_float s) as [m e | |] eqn:Hr; try discriminate.
  exfalso. exact (read_float_last s pre c Hc Hs m e Hr).
Qed.

(** A number has none of the units at its end. *)
Lemma pyfloat_no_unit (s q : string) (c : ascii) (v : R) :
  pyfloat s = Ok v -> ends_unit c = true -> PyStr.endswith s (q ++ String c "") = false.
Proof.
  intros H Hc. destruct (PyStr.endswith s (q ++ String c "")) eqn:E; [| reflexivity].
  destruct (endswith_split _ _ E) as [q' Hs].
  exfalso.
  assert (Hs' : s = (q' ++ q) ++ String c "").
  { rewrite Hs. clear. induction q' as [| d q' IH]; simpl; [reflexivity | now rewrite IH]. }
  pose proof (pyfloat_last s (q' ++ q) c v H Hs') as Hn. congruence.
Qed.

Lemma append_inj_r (s s' t : string) : s ++ t = s' ++ t -> s = s'.
Proof.
  intros H.
  assert (Hc : (PyStr.chars s ++ PyStr.chars t)%list
               = (PyStr.chars s' ++ PyStr.chars t)%list)
    by (rewrite <- !chars_app; now rewrite H).
  apply app_inv_tail in Hc.
  rewrite <- (string_of_list_ascii_of_string s), <- (string_of_list_ascii_of_string s').
  unfold PyStr.chars in Hc. now rewrite Hc.
Qed.

(** ** Angles *)

Lemma pyfloat_value (s : string) (m e : Z) :
  PyStr.read_float s = PyStr.Decimal m e -> pyfloat s = Ok (decimal_value m e).
Proof. intros H. unfold pyfloat. now rewrite H. Qed.

Lemma angleStoDeg_token (a : string) (d : R) :
  angle_token a d -> angleStoDeg a = Ok (Some (returned_angle d)).
Proof.
  intros H. unfold angleStoDeg, returned_angle. destruct H as [num v H | num v H | num v H | num v H | num v H].
  - rewrite (endswith_app num "deg" "deg") by (simpl; lia).
    change (PyStr.endswith "deg" "deg") with true. cbv iota.
    rewrite (drop_last_app num "deg" : PyStr.drop_last (num ++ "deg") 3 = num), H. reflexivity.
  - rewrite (endswith_app num "grad" "deg") by (simpl; lia).
    change (PyStr.endswith "grad" "deg") with false. cbv iota.
    rewrite (endswith_app num "grad" "grad") by (simpl; lia).
    change (PyStr.endswith "grad" "grad") with true. cbv iota.
    rewrite (drop_last_app num "grad" : PyStr.drop_last (num ++ "grad") 4 = num), H. reflexivity.
  - rewrite (endswith_app num "rad" "deg") by (simpl; lia).
    change (PyStr.endswith "rad" "deg") with false. cbv iota.
    assert (Hg : PyStr.endswith (num ++ "rad") "grad" = false).
    { destruct (PyStr.endswith (num ++ "rad") "grad") eqn:E; [| reflexivity].
      destruct (endswith_split _ _ E) as [q Hq].
      assert (Hq' : num ++ "rad" = (q ++ "g") ++ "rad").
      { rewrite Hq. clear. induction q as [| c q IH]; simpl; [reflexivity | now rewrite IH]. }
      apply append_inj_r in Hq'.
      pose proof (pyfloat_last num q "g"%char v H Hq'). discriminate. }
    rewrite Hg.
    rewrite (endswith_app num "rad" "rad") by (simpl; lia).
    change (PyStr.endswith "rad" "rad") with true. cbv iota.
    rewrite (drop_last_app num "rad" : PyStr.drop_last (num ++ "rad") 3 = num), H. reflexivity.
  - rewrite (endswith_app num "turn" "deg") by (simpl; lia).
    change (PyStr.endswith "turn" "deg") with false. cbv iota.
    rewrite (endswith_app num "turn" "grad") by (simpl; lia).
    change (PyStr.endswith "turn" "grad") with false. cbv iota.
    rewrite (endswith_app num "turn" "rad") by (simpl; lia).
    change (PyStr.endswith "turn" "rad") with false. cbv iota.
    rewrite (endswith_app num "turn" "turn") by (simpl; lia).
    change (PyStr.endswith "turn" "turn") with true. cbv iota.
    rewrite (drop_last_app num "turn" : PyStr.drop_last (num ++ "turn") 4 = num), H. reflexivity.
  - rewrite (pyfloat_no_unit num "de" "g"%char v H eq_refl
              : PyStr.endswith num "deg" = false).
    rewrite (pyfloat_no_unit num "gra" "d"%char v H eq_refl
              : PyStr.endswith num "grad" = false).
    rewrite (pyfloat_no_unit num "ra" "d"%char v H eq_refl
              : PyStr.endswith num "rad" = false).
    rewrite (pyfloat_no_unit num "tur" "n"%char v H eq_refl
              : PyStr.endswith num "turn" = false).
    rewrite H. reflexivity.
Qed.

Lemma angleStoDeg_malformed (a : string) :
  pyfloat (numeric_part a) = Raise ValueError -> angleStoDeg a = Ok None.
Proof.
  unfold angleStoDeg, numeric_part. intros H.
  destruct (PyStr.endswith a "deg"); [now rewrite H |].
  destruct (PyStr.endswith a "grad"); [now rewrite H |].
  destruct (PyStr.endswith a "rad"); [now rewrite H |].
  destruct (PyStr.endswith a "turn"); now rewrite H.
Qed.

Lemma returned_angle_nonneg (d : R) : 0 <= d -> returned_angle d = d.
Proof. intros H. unfold returned_angle. destruct (Rlt_dec d 0); lra. Qed.

Lemma returned_angle_neg (d : R) :
  d < 0 -> 360 <= returned_angle d < 720
           /\ returned_angle d = d + 360 * IZR (1 - floor (d / 360)).
Proof.
  intros H. unfold returned_angle, fmod. destruct (Rlt_dec d 0); [| lra].
  destruct (floor_bounds (d / 360)) as [Hlo Hhi].
  rewrite minus_IZR. split; lra.
Qed.

Lemma angle_example_400 : angleStoDeg "400deg" = Ok (Some 400).
Proof.
  rewrite (angleStoDeg_token "400deg" 400).
  - rewrite returned_angle_nonneg; [reflexivity | lra].
  - apply (angle_deg "400" 400). rewrite (pyfloat_value "400" 400 0) by reflexivity.
    try reflexivity; f_equal; unfold decimal_value; simpl; lra.
Qed.

Lemma angle_example_minus_90 : angleStoDeg "-90deg" = Ok (Some 630).
Proof.
  rewrite (angleStoDeg_token "-90deg" (-90)).
  - do 2 f_equal. destruct (returned_angle_neg (-90) ltac:(lra)) as [_ ->].
    rewrite (floor_unique (-90 / 360) (-1)) by (simpl; lra). simpl. lra.
  - apply (angle_deg "-90" (-90)). rewrite (pyfloat_value "-90" (-90) 0) by reflexivity.
    try reflexivity; f_equal; unfold decimal_value; simpl; lra.
Qed.

(** The angle is not brought into [[0,360)]: 400 degrees stay 400, and
    -90 degrees become 630. *)
Lemma angleStoDeg_not_normalized :
  ~ (forall (a : string) (d r : R),
       angle_token a d -> angleStoDeg a = Ok (Some r) -> 0 <= r < 360).
Proof.
  intros H.
  assert (Ht : angle_token "400deg" 400).
  { apply (angle_deg "400" 400). rewrite (pyfloat_value "400" 400 0) by reflexivity.
    try reflexivity; f_equal; unfold decimal_value; simpl; lra. }
  specialize (H "400deg" 400 400 Ht angle_example_400). lra.
Qed.

(** C4, as the code has it.  For a token that is a finite number with the
    unit [deg], [grad], [rad] or [turn], or none, standing for [d] degrees,
    [angleStoDeg] returns [d] itself when [d >= 0] (so a value in
    [[0,360)] when [d < 360]), and for [d < 0] an angle that differs from
    [d] by a multiple of 360; when the numeric part of the token does not
    parse, it returns [None]. *)
Theorem angleStoDeg_degrees :
  (forall (a : string) (d : R),
      angle_token a d ->
      exists r, angleStoDeg a = Ok (Some r)
                /\ (0 <= d -> r = d)
                /\ (0 <= d < 360 -> 0 <= r < 360)
                /\ (d < 0 -> exists k : Z, r = d + 360 * IZR k))
  /\ (forall a : string,
        pyfloat (numeric_part a) = Raise ValueError -> angleStoDeg a = Ok None).
Proof.
  split.
  - intros a d H. exists (returned_angle d).
    split; [now apply angleStoDeg_token |].
    split; [apply returned_angle_nonneg |].
    split.
    + intros [H0 H1]. rewrite returned_angle_nonneg; lra.
    + intros Hd. exists (1 - floor (d / 360))%Z. now apply returned_angle_neg.
  - apply angleStoDeg_malformed.
Qed.

Lemma angleStoDeg_degrees_witness :
  (exists r, angleStoDeg "0.5turn" = Ok (Some r)
             /\ (0 <= 0.5 * 360 -> r = 0.5 * 360)
             /\ (0 <= 0.5 * 360 < 360 -> 0 <= r < 360)
             /\ (0.5 * 360 < 0 -> exists k : Z, r = 0.5 * 360 + 360 * IZR k))
  /\ angleStoDeg "1.2.3deg" = Ok None.
Proof.
  destruct angleStoDeg_degrees as [H1 H2]. split.
  - apply (H1 "0.5turn" (0.5 * 360)). apply (angle_turn "0.5" 0.5).
    rewrite (pyfloat_value "0.5" 5 (-1)) by reflexivity.
    try reflexivity; f_equal; unfold decimal_value; simpl; lra.
  - apply (H2 "1.2.3deg"). reflexivity.
Defined.

(** ** The parsers of oklab() and oklch() *)

Lemma component_clamped (tok : string) (scale x : R) (f : R -> R) :
  component tok scale = Ok x ->
  (if PyStr.endswith tok "%"
   then x <- pyfloat (PyStr.drop_last tok 1) ;; Ok (f (x / scale))
   else x <- pyfloat tok ;; Ok (f x))
  = Ok (f x).
Proof.
  unfold component. destruct (PyStr.endswith tok "%").
  - destruct (pyfloat (PyStr.drop_last tok 1)) as [y | e]; simpl; [| discriminate].
    intros H. inversion H. reflexivity.
  - intros ->. reflexivity.
Qed.

Lemma oklabSToRgbF_clamps (syntax trc sL sA sB : string) (xL xA xB : R) :
  PyStr.startswith syntax "oklab" = true ->
  tokens syntax = [sL; sA; sB] ->
  component sL 100 = Ok xL -> component sA 250 = Ok xA -> component sB 250 = Ok xB ->
  oklabSToRgbF syntax trc
  = Ok (Some (display (oklabToLinear (clampF01 xL) (clampF xA 0.4 (-0.4))
                                     (clampF xB 0.4 (-0.4))) trc)).
Proof.
  intros Hs Ht HL HA HB. unfold oklabSToRgbF. rewrite Hs. cbv [negb].
  fold (tokens syntax). rewrite Ht.
  rewrite (component_clamped sL 100 xL clampF01 HL).
  rewrite (component_clamped sA 250 xA (fun x => clampF x 0.4 (-0.4)) HA).
  rewrite (component_clamped sB 250 xB (fun x => clampF x 0.4 (-0.4)) HB).
  cbn [bind]. unfold display.
  destruct (oklabToLinear _ _ _) as [[r g] b]. reflexivity.
Qed.






(** ** Neutral colours *)

Lemma pyround_zero (d : nat) : pyround (0 * 100) d = 0.
Proof.
  unfold pyround. replace (0 * 100 * 10 ^ d) with 0 by lra.
  rewrite (floor_unique 0 0) by (simpl; lra).
  destruct (Rlt_dec (0 - 0) (1 / 2)); [| lra].
  unfold Rdiv. apply Rmult_0_l.
Qed.

Lemma rgbFToOklch_neutral (r g b h : R) (trc : string) (okL okA okB : R) :
  oklabOf r g b trc = Ok (okL, okA, okB) -> neutral (okL, okA, okB) ->
  rgbFToOklch r g b h trc
  = (let ab := polarToCartesian 1 h in
     u <- findGamutIntersection (fst ab) (snd ab) okL 1 okL None ;;
     u <- (if Req_dec_T h 264.06 then Ok (pyround (u - 0.0001) 4)
           else roundZero u (PyInt 4)) ;;
     Ok (pyround (okL * 100) 2, 0, h, u)).
Proof.
  unfold oklabOf, neutral, rgbFToOklch. intros Hlab Hn. simpl in Hn.
  destruct (is_sRGB trc); rewrite Hlab; cbn [bind];
    (destruct (Rlt_dec (fst (cartesianToPolar okA okB)) 0.000001); [| contradiction]);
    cbv zeta;
    destruct (findGamutIntersection _ _ okL 1 okL None); reflexivity.
Qed.

Lemma rgbFToOkhcl_neutral (r g b h : R) (trc : string) (okL okA okB : R) :
  oklabOf r g b trc = Ok (okL, okA, okB) -> neutral (okL, okA, okB) ->
  rgbFToOkhcl r g b h trc
  = (let ab := polarToCartesian 1 h in
     cuspLC <- findCuspLC (fst ab) (snd ab) ;;
     u <- findGamutIntersection (fst ab) (snd ab) okL 1 okL (Some cuspLC) ;;
     u <- fdiv u (snd cuspLC) ;;
     l <- toe okL ;;
     Ok (pyround h 2, 0, pyround (l * 100) 2, pyround (u * 100) 3)).
Proof.
  unfold oklabOf, neutral, rgbFToOkhcl. intros Hlab Hn. simpl in Hn.
  destruct (is_sRGB trc); rewrite Hlab; cbn [bind];
    (destruct (Rlt_dec (fst (cartesianToPolar okA okB)) 0.000001); [| contradiction]);
    cbv zeta;
    (destruct (findCuspLC _ _) as [cusp |]; [| reflexivity]); cbn [bind];
    (destruct (findGamutIntersection _ _ okL 1 okL (Some cusp)); [| reflexivity]);
    cbn [bind];
    (destruct (fdiv _ _); [| reflexivity]); cbn [bind];
    (destruct (toe okL); [| reflexivity]); cbn [bind];
    rewrite pyround_zero; reflexivity.
Qed.

Lemma rgbFToOkhsv_neutral (r g b : R) (trc : string) (okL okA okB : R) :
  oklabOf r g b trc = Ok (okL, okA, okB) -> neutral (okL, okA, okB) ->
  rgbFToOkhsv r g b trc = (tl <- toe okL ;; Ok (0, 0, pyround (tl * 100) 2)).
Proof.
  unfold oklabOf, neutral, rgbFToOkhsv. intros Hlab Hn. simpl in Hn.
  destruct (is_sRGB trc); rewrite Hlab; cbn [bind];
    (destruct (Rlt_dec (fst (cartesianToPolar okA okB)) 0.000001); [| contradiction]);
    reflexivity.
Qed.

Lemma pypow_zero (y : R) : 0 < y -> pypow 0 y = Ok 0.
Proof.
  intros Hy. unfold pypow.
  destruct (Rlt_dec 0 0); [lra |].
  destruct (Req_dec_T 0 0) as [_ | H]; [| contradiction H; reflexivity].
  destruct (Rlt_dec 0 y); [reflexivity | contradiction].
Qed.

(** Black is neutral. *)
Lemma black_oklab : oklabOf 0 0 0 "linear" = Ok (0, 0, 0).
Proof.
  unfold oklabOf. change (is_sRGB "linear") with false. cbv iota beta.
  unfold linearToOklab.
  replace (0.412221469470763 * 0 + 0.5363325372617348 * 0 + 0.0514459932675022 * 0)
    with 0 by lra.
  replace (0.2119034958178252 * 0 + 0.6806995506452344 * 0 + 0.1073969535369406 * 0)
    with 0 by lra.
  replace (0.0883024591900564 * 0 + 0.2817188391361215 * 0 + 0.6299787016738222 * 0)
    with 0 by lra.
  rewrite pypow_zero by lra. cbn [bind].
  do 2 f_equal; [f_equal |]; lra.
Qed.

Lemma black_neutral : neutral (0, 0, 0).
Proof.
  unfold neutral, cartesianToPolar, hypot. simpl.
  replace (0 * 0 + 0 * 0) with 0 by lra. rewrite sqrt_0. lra.
Qed.

Lemma toe_zero_returns : exists tl, toe 0 = Ok tl.
Proof.
  unfold toe, pypow, K1, K2, K3.
  match goal with |- context [Rlt_dec 0 ?x] => destruct (Rlt_dec 0 x) as [_ | Hn] end.
  - cbn [bind]. eexists. reflexivity.
  - exfalso. apply Hn. lra.
Qed.

(** [rgbFToOkhsv] has no hue among its parameters: for a neutral colour
    it reports hue 0, whatever hue was known before. *)
Lemma rgbFToOkhsv_forgets_hue :
  ~ (forall (r g b h : R) (trc : string) (lab res : rgb),
       oklabOf r g b trc = Ok lab -> neutral lab ->
       rgbFToOkhsv r g b trc = Ok res -> fst (fst res) = h).
Proof.
  intros H. destruct toe_zero_returns as [tl Htl].
  assert (E : rgbFToOkhsv 0 0 0 "linear" = Ok (0, 0, pyround (tl * 100) 2)).
  { rewrite (rgbFToOkhsv_neutral 0 0 0 "linear" 0 0 0 black_oklab black_neutral).
    rewrite Htl. reflexivity. }
  specialize (H 0 0 0 30 "linear" (0, 0, 0) _ black_oklab black_neutral E).
  simpl in H. lra.
Qed.

(** C3, as the code has it.  For an RGB input whose Oklab chroma is below
    1e-6, [rgbFToOklch] and [rgbFToOkhcl] compute the limit of the gamut
    in the direction of the hue [h] they are passed, report that hue
    (OKHCL rounds it to two decimals) and report the chroma as exactly 0;
    [rgbFToOkhsv] takes no hue, computes no limit, and reports hue 0 and
    saturation 0. *)
Theorem neutral_keeps_hue (r g b h : R) (trc : string) (okL okA okB : R) :
  oklabOf r g b trc = Ok (okL, okA, okB) -> neutral (okL, okA, okB) ->
  rgbFToOklch r g b h trc
  = (let ab := polarToCartesian 1 h in
     u <- findGamutIntersection (fst ab) (snd ab) okL 1 okL None ;;
     u <- (if Req_dec_T h 264.06 then Ok (pyround (u - 0.0001) 4)
           else roundZero u (PyInt 4)) ;;
     Ok (pyround (okL * 100) 2, 0, h, u))
  /\ rgbFToOkhcl r g b h trc
     = (let ab := polarToCartesian 1 h in
        cuspLC <- findCuspLC (fst ab) (snd ab) ;;
        u <- findGamutIntersection (fst ab) (snd ab) okL 1 okL (Some cuspLC) ;;
        u <- fdiv u (snd cuspLC) ;;
        l <- toe okL ;;
        Ok (pyround h 2, 0, pyround (l * 100) 2, pyround (u * 100) 3))
  /\ rgbFToOkhsv r g b trc = (tl <- toe okL ;; Ok (0, 0, pyround (tl * 100) 2))
  /\ returns (fun res => let '(_, c, h', _) := res in c = 0 /\ h' = h)
             (rgbFToOklch r g b h trc)
  /\ returns (fun res => let '(h', c, _, _) := res in c = 0 /\ h' = pyround h 2)
             (rgbFToOkhcl r g b h trc)
  /\ returns (fun res => let '(h', s, _) := res in h' = 0 /\ s = 0)
             (rgbFToOkhsv r g b trc).
Proof.
  intros Hlab Hn.
  pose proof (rgbFToOklch_neutral r g b h trc okL okA okB Hlab Hn) as E1.
  pose proof (rgbFToOkhcl_neutral r g b h trc okL okA okB Hlab Hn) as E2.
  pose proof (rgbFToOkhsv_neutral r g b trc okL okA okB Hlab Hn) as E3.
  split; [exact E1 |]. split; [exact E2 |]. split; [exact E3 |].
  split; [| split].
  - rewrite E1. cbv zeta. apply returns_bind. intros u.
    apply returns_bind. intros u'. simpl. split; reflexivity.
  - rewrite E2. cbv zeta. apply returns_bind. intros cusp.
    apply returns_bind. intros u. apply returns_bind. intros u'.
    apply returns_bind. intros l. simpl. split; reflexivity.
  - rewrite E3. apply returns_bind. intros tl. simpl. split; reflexivity.
Qed.

Lemma neutral_keeps_hue_witness :
  returns (fun res => let '(_, c, h', _) := res in c = 0 /\ h' = 210)
          (rgbFToOklch 0 0 0 210 "linear")
  /\ returns (fun res => let '(h', s, _) := res in h' = 0 /\ s = 0)
             (rgbFToOkhsv 0 0 0 "linear").
Proof.
  destruct (neutral_keeps_hue 0 0 0 210 "linear" 0 0 0 black_oklab black_neutral)
    as (_ & _ & _ & H1 & _ & H3).
  split; [exact H1 | exact H3].
Defined.

(** ** The Halley step of the gamut intersection *)

Lemma guarded_invalid (ut : R * R) : fst ut < 0 -> guarded ut = float_max.
Proof. intros H. unfold guarded. destruct (Rle_dec 0.0 (fst ut)); [lra | reflexivity]. Qed.

Lemma guarded_valid (ut : R * R) : 0 <= fst ut -> guarded ut = snd ut.
Proof. intros H. unfold guarded. destruct (Rle_dec 0.0 (fst ut)); [reflexivity | lra]. Qed.

Lemma findGamutIntersection_upper (a b l1 c1 l0 : R) (cuspLC : R * R) :
  ~ lowerHalf l1 c1 l0 cuspLC ->
  findGamutIntersection a b l1 c1 l0 (Some cuspLC)
  = (t <- triangleT l1 c1 l0 cuspLC ;;
     ' (ut_r, ut_g, ut_b) <- halleyChannels a b l1 c1 l0 t ;;
     Ok (t + min3 (guarded ut_r) (guarded ut_g) (guarded ut_b))).
Proof.
  intros H. unfold findGamutIntersection. cbn [bind].
  destruct (lowerHalf_dec l1 c1 l0 cuspLC); [contradiction | reflexivity].
Qed.



Lemma min3_le (x y z : R) : min3 x y z <= x /\ min3 x y z <= y /\ min3 x y z <= z.
Proof.
  unfold min3. pose proof (Rmin_l x (Rmin y z)). pose proof (Rmin_r x (Rmin y z)).
  pose proof (Rmin_l y z). pose proof (Rmin_r y z). lra.
Qed.




Lemma triangle_example : triangleT 0.9 1 0.9 (0.6, 0.2) = Ok 0.05.
Proof.
  unfold triangleT. cbn [fst snd]. rewrite fdiv_ok by lra. f_equal. lra.
Qed.

(** At hue 0 and lightness 0.9, against the triangle of the cusp
    (0.6, 0.2): the refinements of green and blue are invalid, and negative;
    the step taken is the one of red. *)
Example upper_half_example :
  exists ur tr ug tg ub tb,
    halleyChannels 1 0 0.9 1 0.9 0.05 = Ok ((ur, tr), (ug, tg), (ub, tb))
    /\ 0 <= ur /\ ug < 0 /\ ub < 0 /\ tg < 0 /\ tb < 0
    /\ 0.0062 < tr < 0.0063
    /\ findGamutIntersection 1 0 0.9 1 0.9 (Some (0.6, 0.2)) = Ok (0.05 + tr).
Proof.
  assert (Hup : ~ lowerHalf 0.9 1 0.9 (0.6, 0.2)) by (unfold lowerHalf; cbn [fst snd]; lra).
  rewrite (findGamutIntersection_upper _ _ _ _ _ _ Hup), triangle_example. cbn [bind].
  unfold halleyChannels. cbv zeta.
  replace (0.9 * (1.0 - 0.05) + 0.05 * 0.9
           + 0.05 * 1 * (0.3963377774 * 1 + 0.2158037573 * 0))
    with 0.91981688887 by lra.
  replace (0.9 * (1.0 - 0.05) + 0.05 * 0.9
           + 0.05 * 1 * (-0.1055613458 * 1 - 0.0638541728 * 0))
    with 0.89472193271 by lra.
  replace (0.9 * (1.0 - 0.05) + 0.05 * 0.9
           + 0.05 * 1 * (-0.0894841775 * 1 - 1.2914855480 * 0))
    with 0.895525791125 by lra.
  replace (0.9 - 0.9 + 1 * (0.3963377774 * 1 + 0.2158037573 * 0))
    with 0.3963377774 by lra.
  replace (0.9 - 0.9 + 1 * (-0.1055613458 * 1 - 0.0638541728 * 0))
    with (-0.1055613458) by lra.
  replace (0.9 - 0.9 + 1 * (-0.0894841775 * 1 - 1.2914855480 * 0))
    with (-0.0894841775) by lra.
  unfold halleyChannel. cbv zeta.
  rewrite fdiv_ok by lra. cbn [bind].
  rewrite fdiv_ok by lra. cbn [bind].
  rewrite fdiv_ok by lra. cbn [bind].
  do 6 eexists. split; [reflexivity |].
  cbn [fst snd].
  match goal with
  | |- 0 <= ?ur /\ ?ug < 0 /\ ?ub < 0 /\ ?tg < 0 /\ ?tb < 0 /\ _ < ?tr < _ /\ _ =>
      assert (Hur : 0 <= ur) by lra;
      assert (Hug : ug < 0) by lra;
      assert (Hub : ub < 0) by lra;
      assert (Htg : tg < 0) by lra;
      assert (Htb : tb < 0) by lra;
      assert (Htr : 0.0062 < tr < 0.0063) by lra;
      set (tr' := tr) in *; set (tg' := tg) in *; set (tb' := tb) in *;
      set (ur' := ur) in *; set (ug' := ug) in *; set (ub' := ub) in *
  end.
  clearbody ur' ug' ub' tr' tg' tb'.
  repeat (split; [assumption |]).
  rewrite (guarded_valid (ur', tr')) by exact Hur.
  rewrite (guarded_invalid (ug', tg')) by exact Hug.
  rewrite (guarded_invalid (ub', tb')) by exact Hub.
  cbn [snd]. do 2 f_equal. unfold min3. rewrite (Rmin_left float_max float_max) by lra.
  apply Rmin_left. unfold float_max. lra.
Qed.

(** ** Oklab there and back *)

(** The cube root [x ** (1 / 3)] of a cone response that is not negative. *)
Lemma cube_root (x : R) :
  0 <= x -> exists y, pypow x (1 / 3) = Ok y /\ 0 <= y /\ y * y * y = x.
Proof.
  intros [Hpos | Hzero].
  - exists (Rpower x (1 / 3)). unfold pypow.
    destruct (Rlt_dec 0 x); [| contradiction].
    split; [reflexivity |]. split; [left; apply exp_pos |].
    rewrite <- !Rpower_plus.
    replace (1 / 3 + 1 / 3 + 1 / 3) with 1 by lra.
    now apply Rpower_1.
  - subst x. exists 0. rewrite pypow_zero by lra.
    split; [reflexivity |]. split; lra.
Qed.

Lemma cube_root_le (x y : R) :
  0 <= y -> y * y * y = x -> x <= 1.000000000000001 -> y <= 1.0000001.
Proof.
  intros Hy Hc Hx. destruct (Rle_dec y 1.0000001) as [H | H]; [exact H |].
  exfalso. assert (H1 : 1.0000001 < y) by lra.
  assert (H2 : 1.0000001 * 1.0000001 < y * y) by nra.
  assert (H3 : 1.0000001 * 1.0000001 * 1.0000001 < y * y * y) by nra.
  lra.
Qed.

Lemma Rabs_bounds (a b : R) : Rabs a <= b -> - b <= a <= b.
Proof. unfold Rabs. destruct (Rcase_abs a); lra. Qed.

Lemma cube_close (x y e : R) :
  0 <= x <= 1.0000001 -> Rabs (y - x) <= e -> e <= 0.01 ->
  Rabs (y * y * y - x * x * x) <= 4 * e.
Proof.
  intros Hx Hd He. apply Rabs_bounds in Hd.
  set (d := y - x) in *. replace y with (x + d) by (unfold d; lra).
  replace ((x + d) * (x + d) * (x + d) - x * x * x)
    with (d * (3 * x * x + 3 * x * d + d * d)) by ring.
  assert (Hd' : - 0.01 <= d <= 0.01) by lra.
  pose proof (Rle_0_sqr (x + d / 2)) as Hsq. unfold Rsqr in Hsq.
  assert (Hxx : 0 <= x * x <= 1.0000001 * 1.0000001).
  { split; [apply Rmult_le_pos; lra |]. apply Rmult_le_compat; lra. }
  assert (Hxd : - 0.0100001 <= x * d <= 0.0100001).
  { destruct (Rle_dec 0 d).
    - assert (0 <= x * d) by (apply Rmult_le_pos; lra).
      assert (x * d <= 1.0000001 * 0.01) by (apply Rmult_le_compat; lra). lra.
    - assert (0 <= x * (- d)) by (apply Rmult_le_pos; lra).
      assert (x * (- d) <= 1.0000001 * 0.01) by (apply Rmult_le_compat; lra). lra. }
  assert (Hdd : 0 <= d * d <= 0.0001).
  { pose proof (Rle_0_sqr d) as H0. unfold Rsqr in H0. split; [exact H0 |].
    destruct (Rle_dec 0 d).
    - assert (d * d <= 0.01 * 0.01) by (apply Rmult_le_compat; lra). lra.
    - assert ((- d) * (- d) <= 0.01 * 0.01) by (apply Rmult_le_compat; lra). lra. }
  set (q := 3 * x * x + 3 * x * d + d * d).
  assert (Hq : 0 <= q <= 4) by (unfold q; lra).
  clearbody q. apply Rabs_le.
  destruct (Rle_dec 0 d).
  - assert (0 <= d * q) by (apply Rmult_le_pos; lra).
    assert (d * q <= e * 4) by (apply Rmult_le_compat; lra). lra.
  - assert (0 <= (- d) * q) by (apply Rmult_le_pos; lra).
    assert ((- d) * q <= e * 4) by (apply Rmult_le_compat; lra). lra.
Qed.

(** C2. For a linear RGB triple with all components in [[0,1]],
    [oklabToLinear(linearToOklab(r, g, b))] is the triple again within
    1e-9 in each component: the cube undoes the cube root, and the
    constant matrices of the two directions are inverse to each other to
    that precision. *)
Theorem oklab_roundtrip (r g b : R) :
  in01 r -> in01 g -> in01 b ->
  exists L A B,
    linearToOklab r g b = Ok (L, A, B)
    /\ let '(r', g', b') := oklabToLinear L A B in
       Rabs (r' - r) <= 1e-9 /\ Rabs (g' - g) <= 1e-9 /\ Rabs (b' - b) <= 1e-9.
Proof.
  unfold in01. intros Hr Hg Hb. unfold linearToOklab.
  set (l := 0.412221469470763 * r + 0.5363325372617348 * g + 0.0514459932675022 * b).
  set (m := 0.2119034958178252 * r + 0.6806995506452344 * g + 0.1073969535369406 * b).
  set (s := 0.0883024591900564 * r + 0.2817188391361215 * g + 0.6299787016738222 * b).
  assert (Hl : 0 <= l <= 1.000000000000001) by (unfold l; lra).
  assert (Hm : 0 <= m <= 1.000000000000001) by (unfold m; lra).
  assert (Hs : 0 <= s <= 1.000000000000001) by (unfold s; lra).
  destruct (cube_root l (proj1 Hl)) as (x1 & -> & Hx1 & Hc1).
  destruct (cube_root m (proj1 Hm)) as (x2 & -> & Hx2 & Hc2).
  destruct (cube_root s (proj1 Hs)) as (x3 & -> & Hx3 & Hc3).
  pose proof (cube_root_le l x1 Hx1 Hc1 (proj2 Hl)) as Hx1'.
  pose proof (cube_root_le m x2 Hx2 Hc2 (proj2 Hm)) as Hx2'.
  pose proof (cube_root_le s x3 Hx3 Hc3 (proj2 Hs)) as Hx3'.
  cbn [bind]. do 3 eexists. split; [reflexivity |].
  cbv beta iota zeta delta [oklabToLinear].
  set (Y1 := _ + 0.3963377773761749 * _ + 0.2158037573099136 * _).
  set (Y2 := _ - 0.1055613458156586 * _ - 0.0638541728258133 * _).
  set (Y3 := _ - 0.0894841775298119 * _ - 1.2914855480194092 * _).
  assert (E1 : Rabs (Y1 - x1) <= 1e-14) by (unfold Y1; apply Rabs_le; lra).
  assert (E2 : Rabs (Y2 - x2) <= 1e-14) by (unfold Y2; apply Rabs_le; lra).
  assert (E3 : Rabs (Y3 - x3) <= 1e-14) by (unfold Y3; apply Rabs_le; lra).
  apply (cube_close x1 Y1 1e-14 (conj Hx1 Hx1')) in E1; [| lra].
  apply (cube_close x2 Y2 1e-14 (conj Hx2 Hx2')) in E2; [| lra].
  apply (cube_close x3 Y3 1e-14 (conj Hx3 Hx3')) in E3; [| lra].
  rewrite Hc1 in E1. rewrite Hc2 in E2. rewrite Hc3 in E3.
  apply Rabs_bounds in E1. apply Rabs_bounds in E2. apply Rabs_bounds in E3.
  set (C1 := Y1 * Y1 * Y1) in *. set (C2 := Y2 * Y2 * Y2) in *.
  set (C3 := Y3 * Y3 * Y3) in *. clearbody C1 C2 C3. clear Y1 Y2 Y3.
  unfold l, m, s in E1, E2, E3.
  repeat split; apply Rabs_le; lra.
Qed.

Lemma oklab_roundtrip_witness :
  exists L A B,
    linearToOklab 0.2 0.5 1 = Ok (L, A, B)
    /\ let '(r', g', b') := oklabToLinear L A B in
       Rabs (r' - 0.2) <= 1e-9 /\ Rabs (g' - 0.5) <= 1e-9 /\ Rabs (b' - 1) <= 1e-9.
Proof.
  apply (oklab_roundtrip 0.2 0.5 1); unfold in01; lra.
Defined.

(** * Further properties of the conversions *)

(** ** Clamping and the transfer curves *)

Lemma clampF_monotone (f1 f2 u l : R) :
  l <= u -> f1 <= f2 -> clampF f1 u l <= clampF f2 u l.
Proof.
  intros Hlu Hf. unfold clampF.
  destruct (Rlt_dec f1 l), (Rlt_dec f2 l),
           (Req_dec_T u 1), (Rlt_dec 0.999999 f1), (Rlt_dec 0.999999 f2),
           (Rlt_dec u f1), (Rlt_dec u f2); simpl; lra.
Qed.

Lemma clampF01_fixed (f : R) : 0 <= f <= 0.999999 -> clampF01 f = f.
Proof.
  intros Hf. unfold clampF01, clampF.
  destruct (Rlt_dec f 0), (Req_dec_T 1 1), (Rlt_dec 0.999999 f), (Rlt_dec 1 f);
    simpl; lra.
Qed.

Lemma clampF01_snaps (f : R) : 0.999999 < f -> clampF01 f = 1.
Proof.
  intros Hf. unfold clampF01, clampF.
  destruct (Rlt_dec f 0), (Req_dec_T 1 1), (Rlt_dec 0.999999 f), (Rlt_dec 1 f);
    simpl; lra.
Qed.

Lemma clampF01_idempotent (f : R) : clampF01 (clampF01 f) = clampF01 f.
Proof.
  unfold clampF01, clampF.
  destruct (Rlt_dec f 0), (Req_dec_T 1 1), (Rlt_dec 0.999999 f), (Rlt_dec 1 f);
    simpl;
    repeat match goal with
           | |- context [Rlt_dec ?a ?b] => destruct (Rlt_dec a b)
           | |- context [Req_dec_T ?a ?b] => destruct (Req_dec_T a b)
           end; simpl; lra.
Qed.

(** X1. [clampF] is monotone in its argument for any bounds [l <= u];
    with the default bounds it is idempotent, leaves [[0, 0.999999]]
    untouched and sends everything above 0.999999 to exactly 1. *)
Theorem clampF_order :
  (forall f1 f2 u l : R,
      l <= u -> f1 <= f2 -> clampF f1 u l <= clampF f2 u l)
  /\ (forall f : R, clampF (clampF f 1 0) 1 0 = clampF f 1 0)
  /\ (forall f : R, 0 <= f <= 0.999999 -> clampF f 1 0 = f)
  /\ (forall f : R, 0.999999 < f -> clampF f 1 0 = 1).
Proof.
  split; [exact clampF_monotone |].
  split; [exact clampF01_idempotent |].
  split; [exact clampF01_fixed | exact clampF01_snaps].
Qed.

Lemma clampF_order_witness :
  clampF 0.2 0.4 (-0.4) <= clampF 0.7 0.4 (-0.4)
  /\ clampF 0.5 1 0 = 0.5
  /\ clampF 0.9999995 1 0 = 1.
Proof.
  destruct clampF_order as [Hm [_ [Hf Hs]]].
  split; [apply Hm; lra |].
  split; [apply Hf; lra | apply Hs; lra].
Defined.

(** *** Powers with the exponents 12/5 and 5/12 *)

Lemma pow_lt_reflect (n : nat) (x y : R) : 0 <= x -> 0 <= y -> x ^ n < y ^ n -> x < y.
Proof.
  intros Hx Hy H. destruct (Rlt_dec x y) as [Hlt | Hge]; [exact Hlt |].
  exfalso. assert (Hle : y ^ n <= x ^ n) by (apply pow_incr; lra). lra.
Qed.

Lemma pow_le_reflect (n : nat) (x y : R) :
  (0 < n)%nat -> 0 <= x -> 0 <= y -> x ^ n <= y ^ n -> x <= y.
Proof.
  intros Hn Hx Hy H. destruct (Rle_dec x y) as [Hle | Hgt]; [exact Hle |].
  exfalso. assert (Hlt : y < x) by lra.
  assert (y ^ n < x ^ n); [| lra].
  destruct n as [| n]; [lia |]. clear Hn H Hgt.
  induction n as [| n IH].
  - simpl. lra.
  - change (y ^ S (S n)) with (y * y ^ S n). change (x ^ S (S n)) with (x * x ^ S n).
    assert (0 <= y ^ S n) by (apply pow_le; lra).
    apply Rle_lt_trans with (y * x ^ S n).
    + apply Rmult_le_compat_l; lra.
    + apply Rmult_lt_compat_r; lra.
Qed.


(** [(x ** (1 / 2.4)) ** 12 = x ** 5] *)
Lemma Rpower_inv_gamma_pow (x : R) : 0 < x -> Rpower x (1 / GAMMA) ^ 12 = x ^ 5.
Proof.
  intros Hx. rewrite <- (Rpower_pow 12) by apply exp_pos.
  rewrite Rpower_mult. rewrite <- (Rpower_pow 5) by exact Hx.
  f_equal. unfold GAMMA. simpl. lra.
Qed.



Lemma Rpower_pos (x y : R) : 0 < Rpower x y.
Proof. apply exp_pos. Qed.



Lemma componentToSRGB_linear_part (c : R) : c <= 0.0031308 -> componentToSRGB c = c * PHI.
Proof.
  intros Hc. unfold componentToSRGB. destruct (Rlt_dec 0.0031308 c); [lra | reflexivity].
Qed.

Lemma componentToSRGB_power_part (c : R) :
  0.0031308 < c -> componentToSRGB c = (1 + ALPHA) * Rpower c (1 / GAMMA) - ALPHA.
Proof.
  intros Hc. unfold componentToSRGB. destruct (Rlt_dec 0.0031308 c); [reflexivity | lra].
Qed.

Lemma componentToLinear_linear_part (s : R) : s <= 0.04045 -> componentToLinear s = s / PHI.
Proof.
  intros Hs. unfold componentToLinear. destruct (Rlt_dec 0.04045 s); [lra | reflexivity].
Qed.

Lemma componentToLinear_power_part (s : R) :
  0.04045 < s -> componentToLinear s = Rpower ((s + ALPHA) / (1 + ALPHA)) GAMMA.
Proof.
  intros Hs. unfold componentToLinear. destruct (Rlt_dec 0.04045 s); [reflexivity | lra].
Qed.





(** In the band the encoder takes its power branch and the decoder its
    linear one: what comes back is not the value that went in. *)
Example transfer_band : componentToLinear (componentToSRGB 0.003130805) <> 0.003130805.
Proof.
  rewrite componentToSRGB_power_part by lra.
  pose proof (Rpower_inv_gamma_pow 0.003130805 ltac:(lra)) as Hp.
  pose proof (Rpower_pos 0.003130805 (1 / GAMMA)) as Hq.
  set (p := Rpower 0.003130805 (1 / GAMMA)) in *.
  (* p < 0.09545 / 1.055: the encoded value is at most 0.04045 *)
  assert (Hup : p < 0.09545 / 1.055).
  { apply (pow_lt_reflect 12); [lra | lra |]. rewrite Hp. simpl. lra. }
  rewrite componentToLinear_linear_part by (unfold ALPHA; lra).
  unfold ALPHA, PHI. lra.
Qed.

Lemma componentToSRGB_in01 (c : R) : in01 c -> in01 (componentToSRGB c).
Proof.
  unfold in01. intros [H0 H1].
  destruct (Rlt_dec 0.0031308 c) as [Hc | Hc].
  - rewrite componentToSRGB_power_part by exact Hc.
    pose proof (Rpower_unit_interval c (1 / GAMMA) ltac:(lra)
                  ltac:(unfold GAMMA; lra)) as [Hp0 Hp1].
    pose proof (Rpower_inv_gamma_pow c ltac:(lra)) as Hp.
    set (p := Rpower c (1 / GAMMA)) in *.
    assert (Hlo : 0.055 / 1.055 < p).
    { apply (pow_lt_reflect 12); [lra | lra |]. rewrite Hp.
      apply Rlt_le_trans with (0.0031308 ^ 5); [simpl; lra | apply pow_incr; lra]. }
    unfold ALPHA. lra.
  - rewrite componentToSRGB_linear_part by lra. unfold PHI. lra.
Qed.




(** ** The toe of the lightness *)

Lemma pypow_sqrt (x : R) : 0 < x -> pypow x (1 / 2) = Ok (sqrt x).
Proof.
  intros Hx. unfold pypow. destruct (Rlt_dec 0 x); [| lra].
  f_equal. replace (1 / 2) with (/ 2) by lra. now apply Rpower_sqrt.
Qed.

Lemma K3_value : K3 = 1.206 / 1.03.
Proof. unfold K3, K1, K2. lra. Qed.

Lemma toe_value (x : R) :
  0 <= x ->
  toe x = Ok (0.5 * (K3 * x - K1
                     + sqrt ((K3 * x - K1) * (K3 * x - K1) + 4 * K2 * K3 * x))).
Proof.
  intros Hx. unfold toe. rewrite pypow_sqrt; [reflexivity |].
  rewrite K3_value. unfold K1, K2.
  assert (0 <= (1.206 / 1.03 * x - 0.206) * (1.206 / 1.03 * x - 0.206))
    by apply Rle_0_sqr.
  destruct Hx as [Hx | Hx].
  - assert (0 < 4 * 0.03 * (1.206 / 1.03) * x) by nra. lra.
  - subst x. lra.
Qed.



(** ** Polar and cartesian coordinates *)







(** ** Rounding to decimal places *)















(** ** The hue of an RGB triple *)

Lemma Reqb_true (x y : R) : x = y -> Reqb x y = true.
Proof. intros H. unfold Reqb. destruct (Req_dec_T x y); [reflexivity | contradiction]. Qed.

Lemma Reqb_false (x y : R) : x <> y -> Reqb x y = false.
Proof. intros H. unfold Reqb. destruct (Req_dec_T x y); [contradiction | reflexivity]. Qed.

Lemma Rleb_true (x y : R) : x <= y -> Rleb x y = true.
Proof. intros H. unfold Rleb. destruct (Rle_dec x y); [reflexivity | contradiction]. Qed.

Lemma Rleb_false (x y : R) : y < x -> Rleb x y = false.
Proof. intros H. unfold Rleb. destruct (Rle_dec x y); [lra | reflexivity]. Qed.

Lemma Rltb_true (x y : R) : x < y -> Rltb x y = true.
Proof. intros H. unfold Rltb. destruct (Rlt_dec x y); [reflexivity | contradiction]. Qed.

Lemma Rltb_false (x y : R) : y <= x -> Rltb x y = false.
Proof. intros H. unfold Rltb. destruct (Rlt_dec x y); [lra | reflexivity]. Qed.

Lemma max3_spec (a b c : R) :
  a <= max3 a b c /\ b <= max3 a b c /\ c <= max3 a b c
  /\ (max3 a b c = a \/ max3 a b c = b \/ max3 a b c = c).
Proof.
  unfold max3, Rmax.
  destruct (Rle_dec b c); destruct (Rle_dec a _); lra.
Qed.

Lemma min3_spec (a b c : R) :
  min3 a b c <= a /\ min3 a b c <= b /\ min3 a b c <= c
  /\ (min3 a b c = a \/ min3 a b c = b \/ min3 a b c = c).
Proof.
  unfold min3, Rmin.
  destruct (Rle_dec b c); destruct (Rle_dec a _); lra.
Qed.

Lemma max3_unique (a b c v : R) :
  a <= v -> b <= v -> c <= v -> (v = a \/ v = b \/ v = c) -> max3 a b c = v.
Proof. intros. pose proof (max3_spec a b c). lra. Qed.

Lemma min3_unique (a b c m : R) :
  m <= a -> m <= b -> m <= c -> (m = a \/ m = b \/ m = c) -> min3 a b c = m.
Proof. intros. pose proof (min3_spec a b c). lra. Qed.


Lemma fmod_small (x : R) : 0 <= x < 6 -> fmod x 6 = x.
Proof.
  intros H. unfold fmod. rewrite (floor_unique (x / 6) 0) by (simpl; lra). lra.
Qed.

Lemma fmod_negative (x : R) : -6 <= x < 0 -> fmod x 6 = x + 6.
Proof.
  intros H. unfold fmod. rewrite (floor_unique (x / 6) (-1)) by (simpl; lra). lra.
Qed.

Lemma quotient_bounds (p c : R) : 0 < c -> - c <= p <= c -> -1 <= p / c <= 1.
Proof.
  intros Hc [Hl Hh]. assert (Hi : 0 < / c) by now apply Rinv_0_lt_compat.
  unfold Rdiv. split.
  - replace (-1) with (- c * / c) by (field; lra).
    apply Rmult_le_compat_r; lra.
  - replace 1 with (c * / c) by (field; lra).
    apply Rmult_le_compat_r; lra.
Qed.




(** ** From a hue to RGB and back *)


Lemma quotient_cancel (f c : R) : c <> 0 -> f * c / c = f.
Proof. intros Hc. field. exact Hc. Qed.






(** ** The ends of the scales *)

Lemma pyint_IZR (k : Z) (x : R) : (0 <= k)%Z -> x = IZR k -> pyint x = k.
Proof.
  intros Hk ->. rewrite pyint_nonneg by (apply IZR_le in Hk; exact Hk).
  apply floor_unique. lra.
Qed.

Lemma componentToLinear_0 : componentToLinear 0 = 0.
Proof. rewrite componentToLinear_linear_part by lra. unfold PHI. lra. Qed.

Lemma componentToLinear_1 : componentToLinear 1 = 1.
Proof.
  rewrite componentToLinear_power_part by lra.
  replace ((1 + ALPHA) / (1 + ALPHA)) with 1 by (unfold ALPHA; lra).
  unfold Rpower. rewrite ln_1, Rmult_0_r. apply exp_0.
Qed.

Lemma trcOut_0 (trc : string) : trcOut trc 0 = 0.
Proof. unfold trcOut. destruct (is_sRGB trc); [reflexivity | apply componentToLinear_0]. Qed.

Lemma trcOut_1 (trc : string) : trcOut trc 1 = 1.
Proof. unfold trcOut. destruct (is_sRGB trc); [reflexivity | apply componentToLinear_1]. Qed.

(** X10. The hue 360 gives the colour of the hue 0 in [hsvToRgbF],
    [hslToRgbF] and [hcyToRgbF], whatever the other arguments are. *)
Theorem hue_360_is_hue_0 (s v c u : R) (trc : string) (luma : bool) :
  hsvToRgbF 360 s v trc = hsvToRgbF 0 s v trc
  /\ hslToRgbF 360 s v trc = hslToRgbF 0 s v trc
  /\ hcyToRgbF 360 c v u trc luma = hcyToRgbF 0 c v u trc luma.
Proof.
  assert (H6 : pyint (360 / 60) = 6%Z) by (apply pyint_IZR; [lia | lra]).
  assert (H0 : pyint (0 / 60) = 0%Z) by (apply pyint_IZR; [lia | lra]).
  assert (E6 : 360 / 60 - IZR 6 = 0) by lra.
  assert (E0 : 0 / 60 - IZR 0 = 0) by lra.
  unfold hsvToRgbF, hslToRgbF, hcyToRgbF. rewrite H6, H0.
  change (6 mod 2 =? 0)%Z with true. change (0 mod 2 =? 0)%Z with true.
  change (6 =? 1)%Z with false. change (6 =? 2)%Z with false.
  change (6 =? 3)%Z with false. change (6 =? 4)%Z with false.
  change (6 =? 5)%Z with false.
  change (0 =? 1)%Z with false. change (0 =? 2)%Z with false.
  change (0 =? 3)%Z with false. change (0 =? 4)%Z with false.
  change (0 =? 5)%Z with false.
  cbv iota zeta. cbn [negb]. rewrite E6, E0.
  repeat split; reflexivity.
Qed.

(** X11. The lowest value of the lightness scale is black and the
    highest is white, whatever the hue, the saturation or chroma, the
    limit and the transfer curve are: value 0 in [hsvToRgbF] and
    [okhsvToRgbF], lightness 0 and 100 in [hslToRgbF] and [okhslToRgbF],
    luma 0 and 100 in [hcyToRgbF]. *)
Theorem black_and_white_ends (h s c u : R) (trc : string) (luma : bool) :
  hsvToRgbF h s 0 trc = (0, 0, 0)
  /\ hslToRgbF h s 0 trc = (0, 0, 0)
  /\ hslToRgbF h s 100 trc = (1, 1, 1)
  /\ hcyToRgbF h c 0 u trc luma = Ok (0, 0, 0)
  /\ hcyToRgbF h c 100 u trc luma = Ok (1, 1, 1)
  /\ okhsvToRgbF h s 0 trc = Ok (0, 0, 0)
  /\ okhslToRgbF h s 0 trc = Ok (0, 0, 0)
  /\ okhslToRgbF h s 100 trc = Ok (1, 1, 1).
Proof.
  assert (Hn0 : forall k, hSectorToRgbF k 0 0 0 trc = (0, 0, 0)).
  { intros k. rewrite hSectorToRgbF_neutral. now rewrite trcOut_0. }
  assert (Hn1 : forall k, hSectorToRgbF k 1 1 1 trc = (1, 1, 1)).
  { intros k. rewrite hSectorToRgbF_neutral. now rewrite trcOut_1. }
  assert (Hy0 : (if (luma && is_linear trc)%bool then componentToLinear 0 else 0) = 0).
  { destruct (luma && is_linear trc)%bool; [apply componentToLinear_0 | reflexivity]. }
  assert (Hy1 : (if (luma && is_linear trc)%bool then componentToLinear 1 else 1) = 1).
  { destruct (luma && is_linear trc)%bool; [apply componentToLinear_1 | reflexivity]. }
  repeat split.
  - unfold hsvToRgbF. cbv zeta. rewrite <- (Hn0 (pyint (h / 60))).
    f_equal; lra.
  - unfold hslToRgbF. cbv zeta. rewrite <- (Hn0 (pyint (h / 60))).
    replace (0 / 100) with 0 by lra.
    destruct (Rlt_dec 0 0.5); [| lra].
    f_equal; lra.
  - unfold hslToRgbF. cbv zeta. rewrite <- (Hn1 (pyint (h / 60))).
    replace (100 / 100) with 1 by lra.
    destruct (Rlt_dec 1 0.5); [lra |].
    f_equal; lra.
  - unfold hcyToRgbF. cbv zeta.
    destruct (Req_dec_T 0 (-1)); [lra |].
    replace (0 / 100) with 0 by lra.
    destruct (Req_dec_T 0 0) as [_ | N]; [| contradiction N; reflexivity].
    rewrite orb_true_r. cbn [orb]. now rewrite Hy0.
  - unfold hcyToRgbF. cbv zeta.
    destruct (Req_dec_T 100 (-1)); [lra |].
    replace (100 / 100) with 1 by lra.
    destruct (Req_dec_T 1 1) as [_ | N]; [| contradiction N; reflexivity].
    rewrite orb_true_r. now rewrite Hy1.
  - unfold okhsvToRgbF. cbv zeta.
    destruct (Req_dec_T (0 / 100) 0) as [_ | N]; [reflexivity | lra].
  - unfold okhslToRgbF. cbv zeta.
    destruct (Req_dec_T (0 / 100) 0) as [_ | N]; [| lra].
    cbn [orb]. do 2 f_equal; [f_equal |]; lra.
  - unfold okhslToRgbF. cbv zeta.
    destruct (Req_dec_T (100 / 100) 1) as [_ | N]; [| lra].
    rewrite orb_true_r. do 2 f_equal; [f_equal |]; lra.
Qed.

(** ** The luma of HCY *)




(** ** From RGB to HCY *)

Lemma quotient_times (p c : R) : c <> 0 -> p / c * c = p.
Proof. intros Hc. field. exact Hc. Qed.

(** What [rgbFToHcy] computes for a triple that is not neutral: the hue
    [H] that [sectorHue] finds, the luma coefficient [yHue] of that hue,
    which ties the luma to the minimum and the chroma, and the limit of
    the chroma from the two. *)
Lemma rgbFToHcy_chromatic (r g b h : R) (trc : string) (luma : bool) :
  (luma && is_linear trc)%bool = false ->
  max3 r g b - min3 r g b <> 0 ->
  exists H yHue,
    sectorHue r g b (max3 r g b) (max3 r g b - min3 r g b) = Ok (Some H)
    /\ 0 <= H < 6
    /\ 0.07 <= yHue <= 0.93
    /\ luma709 (r, g, b) = min3 r g b + (max3 r g b - min3 r g b) * yHue
    /\ rgbFToHcy r g b h trc luma
       = (u <- (if Rle_dec (luma709 (r, g, b)) yHue
                then fdiv (luma709 (r, g, b)) yHue
                else fdiv (1 - luma709 (r, g, b)) (1 - yHue)) ;;
          Ok (pyround (H * 60) 2,
              pyround ((max3 r g b - min3 r g b) * 100) 3,
              pyround (luma709 (r, g, b) * 100) 2,
              pyround (u * 100) 3)).
Proof.
  intros Hconv Hc.
  pose proof (max3_spec r g b) as [Hvr [Hvg [Hvb Hv]]].
  pose proof (min3_spec r g b) as [Hmr [Hmg [Hmb Hm]]].
  unfold rgbFToHcy. rewrite Hconv. cbv zeta.
  change (Y709R * r + Y709G * g + Y709B * b) with (luma709 (r, g, b)).
  assert (Hy : luma709 (r, g, b) = 0.2126 * r + 0.7152 * g + 0.0722 * b) by reflexivity.
  set (y := luma709 (r, g, b)) in *.
  set (v := max3 r g b) in *. set (m := min3 r g b) in *.
  assert (Hcpos : 0 < v - m) by lra.
  set (c := v - m) in *.
  assert (Hcdef : c = v - m) by reflexivity.
  rewrite (Reqb_false c 0) by lra. cbn [negb andb orb].
  rewrite !orb_false_r.
  unfold sectorHue. rewrite !fdiv_ok by lra. cbn [bind].
  unfold Y709R, Y709G, Y709B.
  destruct (Req_dec_T v g) as [Eg | Ng];
    [rewrite (Reqb_true v g) by exact Eg | rewrite (Reqb_false v g) by exact Ng].
  - (* green is a maximum *)
    pose proof (quotient_times (b - r) c ltac:(lra)) as Hq.
    pose proof (quotient_bounds (b - r) c Hcpos ltac:(lra)) as Hqb.
    set (q := (b - r) / c) in *.
    rewrite (Rleb_true 1 (q + 2)) by lra. cbn [andb].
    assert (Hue : (if Reqb v r then Ok (Some (fmod ((g - b) / c) 6))
                   else Ok (Some (q + 2))) = Ok (Some (q + 2))).
    { unfold Reqb. destruct (Req_dec_T v r) as [Er | Nr]; [| reflexivity].
      assert (Eb : m = b) by (destruct Hm as [E | [E | E]]; lra).
      replace (g - b) with (1 * c) by lra. rewrite quotient_cancel by lra.
      rewrite fmod_small by lra. do 2 f_equal. nra. }
    rewrite Hue.
    destruct (Rle_dec (q + 2) 2) as [Hle | Hgt].
    + rewrite (Rleb_true (q + 2) 2) by exact Hle. cbn [bind].
      assert (Eb : m = b) by (destruct Hm as [E | [E | E]]; nra).
      exists (q + 2), (0.7152 + 0.2126 * (1 - (q + 2 - 1))).
      split; [reflexivity |]. split; [lra |]. split; [lra |].
      split; [lra | reflexivity].
    + rewrite (Rleb_false (q + 2) 2) by lra.
      rewrite (Rltb_true 2 (q + 2)) by lra.
      rewrite (Rleb_true (q + 2) 3) by lra. cbn [andb bind].
      assert (Er : m = r) by (destruct Hm as [E | [E | E]]; nra).
      exists (q + 2), (0.7152 + 0.0722 * (q + 2 - 2)).
      split; [reflexivity |]. split; [lra |]. split; [lra |].
      split; [lra | reflexivity].
  - destruct (Req_dec_T v b) as [Eb | Nb];
      [rewrite (Reqb_true v b) by exact Eb | rewrite (Reqb_false v b) by exact Nb].
    + (* blue is a maximum, green is not *)
      pose proof (quotient_times (r - g) c ltac:(lra)) as Hq.
      pose proof (quotient_bounds (r - g) c Hcpos ltac:(lra)) as Hqb.
      set (q := (r - g) / c) in *.
      assert (Hq1 : -1 < q).
      { destruct Hqb as [[Hlt | He] _]; [exact Hlt | exfalso].
        rewrite <- He in Hq. lra. }
      rewrite (Rltb_true 3 (q + 4)) by lra.
      assert (Hue : (if Reqb v r then Ok (Some (fmod ((g - b) / c) 6))
                     else Ok (Some (q + 4))) = Ok (Some (q + 4))).
      { unfold Reqb. destruct (Req_dec_T v r) as [Er | Nr]; [| reflexivity].
        assert (Egm : m = g) by (destruct Hm as [E | [E | E]]; lra).
        replace (g - b) with (-1 * c) by lra. rewrite quotient_cancel by lra.
        rewrite fmod_negative by lra. do 2 f_equal. nra. }
      rewrite Hue.
      destruct (Rle_dec (q + 4) 4) as [Hle | Hgt].
      * rewrite (Rleb_true (q + 4) 4) by exact Hle. cbn [andb bind].
        assert (Er : m = r) by (destruct Hm as [E | [E | E]]; nra).
        exists (q + 4), (0.0722 + 0.7152 * (1 - (q + 4 - 3))).
        split; [reflexivity |]. split; [lra |]. split; [lra |].
        split; [lra | reflexivity].
      * rewrite (Rleb_false (q + 4) 4) by lra.
        rewrite (Rltb_true 4 (q + 4)) by lra.
        rewrite (Rleb_true (q + 4) 5) by lra. cbn [andb bind].
        assert (Egm : m = g) by (destruct Hm as [E | [E | E]]; nra).
        exists (q + 4), (0.0722 + 0.2126 * (q + 4 - 4)).
        split; [reflexivity |]. split; [lra |]. split; [lra |].
        split; [lra | reflexivity].
    + (* red is the only maximum *)
      assert (Er : v = r) by lra. rewrite (Reqb_true v r) by exact Er.
      pose proof (quotient_times (g - b) c ltac:(lra)) as Hq.
      pose proof (quotient_bounds (g - b) c Hcpos ltac:(lra)) as Hqb.
      set (q := (g - b) / c) in *.
      assert (Hq1 : -1 < q < 1).
      { destruct Hqb as [[Hlt | He] [Hlt' | He']]; try (split; assumption); exfalso.
        - rewrite He' in Hq. lra.
        - rewrite <- He in Hq. lra.
        - rewrite <- He in Hq. lra. }
      destruct (Rle_dec 0 q) as [Hpos | Hneg].
      * rewrite fmod_small by lra.
        rewrite (Rltb_false 5 q) by lra.
        rewrite (Rleb_true 0 q) by lra. rewrite (Rltb_true q 1) by lra.
        cbn [andb bind].
        assert (Eb : m = b) by (destruct Hm as [E | [E | E]]; nra).
        exists q, (0.2126 + 0.7152 * q).
        split; [reflexivity |]. split; [lra |]. split; [lra |].
        split; [lra | reflexivity].
      * rewrite fmod_negative by lra.
        rewrite (Rltb_true 5 (q + 6)) by lra. rewrite (Rleb_true (q + 6) 6) by lra.
        cbn [andb bind].
        assert (Egm : m = g) by (destruct Hm as [E | [E | E]]; nra).
        exists (q + 6), (0.2126 + 0.0722 * (1 - (q + 6 - 5))).
        split; [reflexivity |]. split; [lra |]. split; [lra |].
        split; [lra | reflexivity].
Qed.

(** X13. For a triple of the unit cube that is not neutral, [rgbFToHcy]
    and [rgbFToHsv] return the same hue, although they test the three
    components for the maximum in a different order (the curve is not
    the linear one, so that neither converts the triple first). *)
Theorem rgbFToHcy_hue_is_hsv_hue (r g b h0 : R) (trc : string) (luma : bool) :
  is_linear trc = false -> in01 r -> in01 g -> in01 b ->
  max3 r g b <> min3 r g b ->
  exists hue s v c y u,
    rgbFToHsv r g b trc = Ok (hue, s, v)
    /\ rgbFToHcy r g b h0 trc luma = Ok (hue, c, y, u).
Proof.
  intros Htrc [Hr0 Hr1] [Hg0 Hg1] [Hb0 Hb1] Hne.
  assert (Hconv : (luma && is_linear trc)%bool = false)
    by (rewrite Htrc; apply andb_false_r).
  assert (Hc : max3 r g b - min3 r g b <> 0) by lra.
  destruct (rgbFToHcy_chromatic r g b h0 trc luma Hconv Hc)
    as (H & yHue & Hhue & HH & HyH & Hluma & ->).
  pose proof (max3_spec r g b) as [Hvr [Hvg [Hvb Hv]]].
  pose proof (min3_spec r g b) as [Hmr [Hmg [Hmb Hm]]].
  unfold rgbFToHsv. rewrite Htrc. cbv iota zeta.
  rewrite Reqb_false by exact Hc. rewrite Hhue. cbn [bind].
  rewrite fdiv_ok by lra. cbn [bind].
  destruct (Rle_dec (luma709 (r, g, b)) yHue); rewrite fdiv_ok by lra; cbn [bind];
    do 6 eexists; split; reflexivity.
Qed.

Lemma rgbFToHcy_hue_is_hsv_hue_witness :
  exists hue s v c y u,
    rgbFToHsv 1 0.5 0 "sRGB" = Ok (hue, s, v)
    /\ rgbFToHcy 1 0.5 0 0 "sRGB" true = Ok (hue, c, y, u).
Proof.
  apply (rgbFToHcy_hue_is_hsv_hue 1 0.5 0 0 "sRGB" true);
    try reflexivity; unfold in01; try lra.
  rewrite (max3_unique 1 0.5 0 1), (min3_unique 1 0.5 0 0) by lra. lra.
Defined.








(** ** The parser of any notation *)




(** *** Hex codes *)

Lemma int16_two_range (c1 c2 : ascii) (k : Z) :
  PyStr.int16 (String c1 (String c2 "")) = Ok k -> (-15 <= k <= 255)%Z.
Proof.
  intros H.
  destruct (readable c1) eqn:H1;
    [| rewrite int16_head_rejects in H by exact H1; discriminate].
  destruct (readable c2) eqn:H2;
    [| rewrite int16_second_rejects in H by assumption; discriminate].
  assert (Hall : forall a b, readable a = true -> readable b = true ->
                             int16_in_range a b = true).
  { apply (forall_selected2 readable readable int16_in_range).
    vm_compute. reflexivity. }
  specialize (Hall c1 c2 H1 H2). unfold int16_in_range in Hall. rewrite H in Hall.
  apply andb_true_iff in Hall. destruct Hall as [Hl Hh].
  apply Z.leb_le in Hl. apply Z.leb_le in Hh. lia.
Qed.

Lemma hex_string_shape (s : string) :
  PyStr.startswith s "#" = true ->
  ((String.length s =? 4)%nat || (String.length s =? 7)%nat)%bool = true ->
  (exists c1 c2 c3, s = String "#" (String c1 (String c2 (String c3 ""))))
  \/ (exists c1 c2 c3 c4 c5 c6,
         s = String "#" (String c1 (String c2 (String c3
               (String c4 (String c5 (String c6 ""))))))).
Proof.
  intros Hp Hl. unfold PyStr.startswith in Hp.
  destruct s as [| c0 s]; [discriminate Hp |]. cbn [prefix] in Hp.
  destruct (ascii_dec "#" c0) as [<- | N]; [| discriminate Hp]. clear Hp.
  destruct s as [| c1 s]; [discriminate Hl |].
  destruct s as [| c2 s]; [discriminate Hl |].
  destruct s as [| c3 s]; [discriminate Hl |].
  destruct s as [| c4 s]; [left; now exists c1, c2, c3 |].
  destruct s as [| c5 s]; [discriminate Hl |].
  destruct s as [| c6 s]; [discriminate Hl |].
  destruct s as [| c7 s]; [right; now exists c1, c2, c3, c4, c5, c6 |].
  simpl in Hl. discriminate Hl.
Qed.

(** The three groups of a hex code, once each is read. *)
Lemma hex_groups_range (trc : string) (g1 g2 g3 : string) :
  (forall k, PyStr.int16 g1 = Ok k -> (-15 <= k <= 255)%Z) ->
  (forall k, PyStr.int16 g2 = Ok k -> (-15 <= k <= 255)%Z) ->
  (forall k, PyStr.int16 g3 = Ok k -> (-15 <= k <= 255)%Z) ->
  exists o,
    except_ValueError
      (r <- PyStr.int16 g1 ;; g <- PyStr.int16 g2 ;; b <- PyStr.int16 g3 ;;
       Ok (Some (trcOut trc (IZR r / 255.0), trcOut trc (IZR g / 255.0),
                 trcOut trc (IZR b / 255.0))))
      (Ok None) = Ok o
    /\ match o with
       | None => True
       | Some c =>
           exists kr kg kb,
             (-15 <= kr <= 255)%Z /\ (-15 <= kg <= 255)%Z /\ (-15 <= kb <= 255)%Z
             /\ c = (hex_channel trc kr, hex_channel trc kg, hex_channel trc kb)
       end.
Proof.
  intros H1 H2 H3.
  destruct (PyStr.int16 g1) as [kr | e] eqn:E1;
    [| apply int16_raises in E1; subst e; exists None; split; [reflexivity | exact I]].
  destruct (PyStr.int16 g2) as [kg | e] eqn:E2;
    [| apply int16_raises in E2; subst e; exists None; split; [reflexivity | exact I]].
  destruct (PyStr.int16 g3) as [kb | e] eqn:E3;
    [| apply int16_raises in E3; subst e; exists None; split; [reflexivity | exact I]].
  eexists. split; [reflexivity |].
  pose proof (H1 kr eq_refl). pose proof (H2 kg eq_refl). pose proof (H3 kb eq_refl).
  exists kr, kg, kb. repeat split; try lia.
Qed.

(** X16. [hexSToRgbF] raises nothing; when it gives a colour, each
    component comes from an integer between -15 and 255, divided by 255
    (and decoded to linear light when the curve is not sRGB): no
    component is above 1, and one can be negative, since [int(s, 16)]
    reads a group such as [-f]. *)
Theorem hexSToRgbF_total_range (s trc : string) :
  exists o, hexSToRgbF s trc = Ok o
    /\ match o with
       | None => True
       | Some c =>
           exists kr kg kb,
             (-15 <= kr <= 255)%Z /\ (-15 <= kg <= 255)%Z /\ (-15 <= kb <= 255)%Z
             /\ c = (hex_channel trc kr, hex_channel trc kg, hex_channel trc kb)
       end.
Proof.
  destruct (PyStr.startswith s "#") eqn:Hp;
    [| exists None; split; [now apply hexSToRgbF_hash | exact I]].
  destruct ((String.length s =? 4)%nat || (String.length s =? 7)%nat)%bool eqn:Hl.
  - destruct (hex_string_shape s Hp Hl)
      as [(c1 & c2 & c3 & ->) | (c1 & c2 & c3 & c4 & c5 & c6 & ->)].
    + rewrite hexSToRgbF_short. apply hex_groups_range; apply int16_two_range.
    + rewrite hexSToRgbF_long. apply hex_groups_range; apply int16_two_range.
  - apply orb_false_iff in Hl. destruct Hl as [H4 H7].
    apply Nat.eqb_neq in H4. apply Nat.eqb_neq in H7.
    exists None. split; [now apply hexSToRgbF_length | exact I].
Qed.

(** The negative component is there: the group [-f] reads as -15. *)
Example hexSToRgbF_negative :
  hexSToRgbF "#-f0000" "sRGB" = Ok (Some (IZR (-15) / 255.0, IZR 0 / 255.0, IZR 0 / 255.0)).
Proof. rewrite hexSToRgbF_long. reflexivity. Qed.

Lemma hexSToRgbF_accepts (s trc : string) (res : rgb) :
  hexSToRgbF s trc = Ok (Some res) ->
  PyStr.startswith s "#" = true
  /\ ((String.length s =? 4)%nat || (String.length s =? 7)%nat)%bool = true.
Proof.
  intros H. destruct (PyStr.startswith s "#") eqn:Hp;
    [| rewrite hexSToRgbF_hash in H by exact Hp; discriminate].
  split; [reflexivity |].
  destruct ((String.length s =? 4)%nat || (String.length s =? 7)%nat)%bool eqn:Hl;
    [reflexivity |].
  apply orb_false_iff in Hl. destruct Hl as [H4 H7].
  apply Nat.eqb_neq in H4. apply Nat.eqb_neq in H7.
  rewrite hexSToRgbF_length in H by assumption. discriminate.
Qed.

(** *** The list of attempts *)

Lemma first_result_app_found (l l' : list (parser * string * string))
    (trc : string) (x : rgb * string) :
  first_result l trc = Ok (Some x) -> first_result (l ++ l') trc = Ok (Some x).
Proof.
  induction l as [| [[fn val] n] l IH]; simpl; [discriminate |].
  destruct (fn val trc) as [[res |] | e]; simpl; auto.
Qed.

Lemma first_result_if (b : bool) (l : list (parser * string * string))
    (e : parser * string * string) (trc : string) (x : rgb * string) :
  first_result l trc = Ok (Some x) ->
  first_result (if b then l ++ [e] else l) trc = Ok (Some x).
Proof. intros H. destruct b; [now apply first_result_app_found | exact H]. Qed.

(** Whatever follows in the list, the answer of its first part stands. *)
Ltac keep_first_result := repeat apply first_result_if.



Lemma hash_index (s : string) : PyStr.startswith s "#" = true -> PyStr.index s 0 = "#".
Proof.
  unfold PyStr.startswith, PyStr.index. destruct s as [| c s]; [discriminate |].
  cbn [prefix]. destruct (ascii_dec "#" c) as [<- | N]; [| discriminate].
  intros _. cbn [substring]. now destruct s.
Qed.

Lemma parseAnything_hashed (s trc cur : string) (res : rgb) :
  hexSToRgbF s trc = Ok (Some res) ->
  parseAnything s trc cur = Ok (Some (res, "HEX")).
Proof.
  intros H. destruct (hexSToRgbF_accepts s trc res H) as [Hp Hl].
  assert (H36 : ((String.length s =? 3)%nat || (String.length s =? 6)%nat)%bool = false).
  { apply orb_true_iff in Hl. destruct Hl as [E | E]; apply Nat.eqb_eq in E;
      rewrite E; reflexivity. }
  unfold parseAnything, attempts. cbv zeta.
  rewrite H36, Hl, (hash_index s Hp). cbn [andb String.eqb Ascii.eqb Bool.eqb].
  destruct (PyStr.split s) as [| c0 [| c1 [| c2 [| c3 l]]]];
    keep_first_result; cbn [app first_result]; rewrite H; reflexivity.
Qed.

Lemma parseAnything_bare (s trc cur : string) (res : rgb) :
  String.length s = 3%nat \/ String.length s = 6%nat ->
  hexSToRgbF ("#" ++ s) trc = Ok (Some res) ->
  parseAnything s trc cur = Ok (Some (res, "HEX")).
Proof.
  intros Hlen H.
  assert (H36 : ((String.length s =? 3)%nat || (String.length s =? 6)%nat)%bool = true).
  { destruct Hlen as [E | E]; rewrite E; reflexivity. }
  unfold parseAnything, attempts. cbv zeta. rewrite H36.
  destruct (PyStr.split s) as [| c0 [| c1 [| c2 [| c3 l]]]];
    keep_first_result; cbn [app first_result]; rewrite H; reflexivity.
Qed.

(** X17. A hex code that [hexSToRgbF] reads is read by [parseAnything]
    as the same colour, with the notation HEX, whatever the current
    notation is; so is the code without its [#], when [hexSToRgbF]
    reads it with the [#]. *)
Theorem parseAnything_hex (s trc cur : string) (res : rgb) :
  (hexSToRgbF s trc = Ok (Some res) ->
   parseAnything s trc cur = Ok (Some (res, "HEX")))
  /\ (String.length s = 3%nat \/ String.length s = 6%nat ->
      hexSToRgbF ("#" ++ s) trc = Ok (Some res) ->
      parseAnything s trc cur = Ok (Some (res, "HEX"))
      /\ parseAnything ("#" ++ s) trc cur = Ok (Some (res, "HEX"))).
Proof.
  split; [apply parseAnything_hashed |].
  intros Hlen H. split; [now apply parseAnything_bare | now apply parseAnything_hashed].
Qed.

Lemma white_code : hexSToRgbF "#fff" "sRGB"
                   = Ok (Some (IZR 255 / 255.0, IZR 255 / 255.0, IZR 255 / 255.0)).
Proof. rewrite hexSToRgbF_short. reflexivity. Qed.

Lemma parseAnything_hex_witness :
  parseAnything "fff" "sRGB" "OKLCH"
  = Ok (Some ((IZR 255 / 255.0, IZR 255 / 255.0, IZR 255 / 255.0), "HEX"))
  /\ parseAnything "#fff" "sRGB" "OKLCH"
     = Ok (Some ((IZR 255 / 255.0, IZR 255 / 255.0, IZR 255 / 255.0), "HEX")).
Proof.
  destruct (parseAnything_hex "fff" "sRGB" "OKLCH"
              (IZR 255 / 255.0, IZR 255 / 255.0, IZR 255 / 255.0)) as [_ H].
  apply H; [left; reflexivity | exact white_code].
Defined.

(** *** Texts that name their notation *)

Lemma oklab_prefix (s : string) :
  PyStr.startswith s "oklab" = true -> exists r, s = "oklab" ++ r.
Proof.
  unfold PyStr.startswith. intros H.
  destruct s as [| c1 s]; [discriminate H |]. cbn [prefix] in H.
  destruct (ascii_dec "o" c1) as [<- | N]; [| discriminate H].
  destruct s as [| c2 s]; [discriminate H |]. cbn [prefix] in H.
  destruct (ascii_dec "k" c2) as [<- | N]; [| discriminate H].
  destruct s as [| c3 s]; [discriminate H |]. cbn [prefix] in H.
  destruct (ascii_dec "l" c3) as [<- | N]; [| discriminate H].
  destruct s as [| c4 s]; [discriminate H |]. cbn [prefix] in H.
  destruct (ascii_dec "a" c4) as [<- | N]; [| discriminate H].
  destruct s as [| c5 s]; [discriminate H |]. cbn [prefix] in H.
  destruct (ascii_dec "b" c5) as [<- | N]; [| discriminate H].
  now exists s.
Qed.

Lemma oklch_prefix (s : string) :
  PyStr.startswith s "oklch" = true -> exists r, s = "oklch" ++ r.
Proof.
  unfold PyStr.startswith. intros H.
  destruct s as [| c1 s]; [discriminate H |]. cbn [prefix] in H.
  destruct (ascii_dec "o" c1) as [<- | N]; [| discriminate H].
  destruct s as [| c2 s]; [discriminate H |]. cbn [prefix] in H.
  destruct (ascii_dec "k" c2) as [<- | N]; [| discriminate H].
  destruct s as [| c3 s]; [discriminate H |]. cbn [prefix] in H.
  destruct (ascii_dec "l" c3) as [<- | N]; [| discriminate H].
  destruct s as [| c4 s]; [discriminate H |]. cbn [prefix] in H.
  destruct (ascii_dec "c" c4) as [<- | N]; [| discriminate H].
  destruct s as [| c5 s]; [discriminate H |]. cbn [prefix] in H.
  destruct (ascii_dec "h" c5) as [<- | N]; [| discriminate H].
  now exists s.
Qed.

(** With [#] before it, a text that starts with [ok] is no hex code. *)
Lemma hash_ok_rejected (c3 c4 c5 : ascii) (r trc : string) :
  hexSToRgbF ("#" ++ String "o" (String "k" (String c3 (String c4 (String c5 r))))) trc
  = Ok None.
Proof.
  destruct r as [| c6 [| c7 r]].
  - apply hexSToRgbF_length; cbn; lia.
  - cbn [append]. rewrite hexSToRgbF_long. reflexivity.
  - apply hexSToRgbF_length; cbn; lia.
Qed.

Lemma oklab_not_hex (s trc : string) :
  PyStr.startswith s "oklab" = true ->
  hexSToRgbF ("#" ++ s) trc = Ok None
  /\ String.eqb (PyStr.index s 0) "#" = false.
Proof.
  intros Hp. destruct (oklab_prefix s Hp) as [r ->]. split.
  - apply (hash_ok_rejected "l" "a" "b" r trc).
  - unfold PyStr.index. cbn [append substring]. now destruct r.
Qed.

Lemma oklch_not_hex (s trc : string) :
  PyStr.startswith s "oklch" = true ->
  hexSToRgbF ("#" ++ s) trc = Ok None
  /\ String.eqb (PyStr.index s 0) "#" = false
  /\ PyStr.startswith s "oklab" = false.
Proof.
  intros Hp. destruct (oklch_prefix s Hp) as [r ->]. split; [| split].
  - apply (hash_ok_rejected "l" "c" "h" r trc).
  - unfold PyStr.index. cbn [append substring]. now destruct r.
  - reflexivity.
Qed.

Lemma parseAnything_oklab (s trc cur : string) (res : rgb) :
  PyStr.startswith s "oklab" = true ->
  oklabSToRgbF s trc = Ok (Some res) ->
  parseAnything s trc cur = Ok (Some (res, "OKLAB")).
Proof.
  intros Hp H. destruct (oklab_not_hex s trc Hp) as [Hhex Hidx].
  unfold parseAnything, attempts. cbv zeta. rewrite Hp, Hidx, andb_false_r.
  destruct (PyStr.split s) as [| c0 [| c1 [| c2 [| c3 l]]]];
    keep_first_result;
    destruct ((String.length s =? 3)%nat || (String.length s =? 6)%nat)%bool;
    cbn [app first_result]; rewrite ?Hhex; cbn [bind]; rewrite H; reflexivity.
Qed.

Lemma parseAnything_oklch (s trc cur : string) (res : rgb) :
  PyStr.startswith s "oklch" = true ->
  oklchSToRgbF s trc = Ok (Some res) ->
  parseAnything s trc cur = Ok (Some (res, "OKLCH")).
Proof.
  intros Hp H. destruct (oklch_not_hex s trc Hp) as (Hhex & Hidx & Hlab).
  unfold parseAnything, attempts. cbv zeta. rewrite Hp, Hlab, Hidx, andb_false_r.
  destruct (PyStr.split s) as [| c0 [| c1 [| c2 [| c3 l]]]];
    keep_first_result;
    destruct ((String.length s =? 3)%nat || (String.length s =? 6)%nat)%bool;
    cbn [app first_result]; rewrite ?Hhex; cbn [bind]; rewrite H; reflexivity.
Qed.

(** X18. A text that starts with [oklab] and that [oklabSToRgbF] reads
    is read by [parseAnything] as the same colour, with the notation
    OKLAB, whatever the current notation is; likewise a text that
    starts with [oklch], with [oklchSToRgbF] and OKLCH. *)
Theorem parseAnything_named (s trc cur : string) (res : rgb) :
  (PyStr.startswith s "oklab" = true -> oklabSToRgbF s trc = Ok (Some res) ->
   parseAnything s trc cur = Ok (Some (res, "OKLAB")))
  /\ (PyStr.startswith s "oklch" = true -> oklchSToRgbF s trc = Ok (Some res) ->
      parseAnything s trc cur = Ok (Some (res, "OKLCH"))).
Proof. split; [apply parseAnything_oklab | apply parseAnything_oklch]. Qed.

Lemma parseAnything_named_witness :
  parseAnything "oklab(150% 0.9 -90%)" "sRGB" "HEX"
  = Ok (Some (display (oklabToLinear (clampF01 (decimal_value 150 0 / 100))
                                     (clampF (decimal_value 9 (-1)) 0.4 (-0.4))
                                     (clampF (decimal_value (-90) 0 / 250) 0.4 (-0.4)))
                      "sRGB", "OKLAB")).
Proof.
  apply (proj1 (parseAnything_named "oklab(150% 0.9 -90%)" "sRGB" "HEX" _)).
  - reflexivity.
  - apply (oklabSToRgbF_clamps _ _ "150%" "0.9" "-90%"); reflexivity.
Defined.




(** ** Writing a hex code on a linear curve *)

Lemma pyround_int_near (x : R) : Rabs (IZR (pyround_int x) - x) <= 1 / 2.
Proof.
  unfold pyround_int. cbv zeta. destruct (floor_bounds x) as [Hlo Hhi].
  destruct (Rlt_dec (x - IZR (floor x)) (1 / 2)) as [H1 | H1].
  - apply Rabs_le. lra.
  - destruct (Rlt_dec (1 / 2) (x - IZR (floor x))) as [H2 | H2].
    + rewrite plus_IZR. apply Rabs_le. lra.
    + destruct (Z.even (floor x)); [| rewrite plus_IZR]; apply Rabs_le; lra.
Qed.

Lemma pyround_int_byte (x : R) : 0 <= x <= 255 -> (0 <= pyround_int x <= 255)%Z.
Proof.
  intros [H0 H255]. destruct (floor_bounds x) as [Hlo Hhi].
  pose proof (floor_nonneg x H0) as Hn.
  assert (Hn255 : (floor x <= 255)%Z) by (apply le_IZR; lra).
  assert (Hup : 1 / 2 <= x - IZR (floor x) -> (floor x + 1 <= 255)%Z).
  { intros Hr. assert (H : (floor x < 255)%Z) by (apply lt_IZR; lra). lia. }
  unfold pyround_int. cbv zeta.
  destruct (Rlt_dec (x - IZR (floor x)) (1 / 2)) as [H1 | H1]; [lia |].
  assert (Hr : 1 / 2 <= x - IZR (floor x)) by lra. specialize (Hup Hr).
  destruct (Rlt_dec (1 / 2) (x - IZR (floor x))); [lia |].
  destruct (Z.even (floor x)); lia.
Qed.

(** The byte written for a channel on a linear curve *)
Lemma linear_channel_byte (r : R) :
  in01 r ->
  (0 <= pyround_int (componentToSRGB r * 255) <= 255)%Z
  /\ Rabs (IZR (pyround_int (componentToSRGB r * 255)) / 255.0 - componentToSRGB r)
     <= 1 / 510.
Proof.
  intros Hr. pose proof (componentToSRGB_in01 r Hr) as [H0 H1]. split.
  - apply pyround_int_byte. lra.
  - pose proof (pyround_int_near (componentToSRGB r * 255)) as Hn.
    apply Rabs_bounds in Hn. apply Rabs_le. lra.
Qed.

(** Three bytes written as a hex code are read back as they are. *)
Lemma hex_bytes_read (kr kg kb : Z) (trc : string) :
  (0 <= kr <= 255)%Z -> (0 <= kg <= 255)%Z -> (0 <= kb <= 255)%Z ->
  hexSToRgbF ("#" ++ hex2 kr ++ hex2 kg ++ hex2 kb) trc
  = Ok (Some (hex_channel trc kr, hex_channel trc kg, hex_channel trc kb)).
Proof.
  intros Kr Kg Kb.
  destruct (hex2_two_digits _ Kr) as (r1 & r2 & Sr & Hr1 & Hr2 & Vr).
  destruct (hex2_two_digits _ Kg) as (g1 & g2 & Sg & Hg1 & Hg2 & Vg).
  destruct (hex2_two_digits _ Kb) as (b1 & b2 & Sb & Hb1 & Hb2 & Vb).
  rewrite Sr, Sg, Sb. cbn [append].
  rewrite hexSToRgbF_long.
  rewrite (int16_two_digits r1 r2 Hr1 Hr2), (int16_two_digits g1 g2 Hg1 Hg2),
          (int16_two_digits b1 b2 Hb1 Hb2).
  rewrite Vr, Vg, Vb. reflexivity.
Qed.

Lemma rgbFToHexS_bytes (r g b : R) (trc : string) :
  rgbFToHexS r g b trc
  = (let '(kr, kg, kb) := rgbFToInt8 r g b trc in
     "#" ++ hex2 kr ++ hex2 kg ++ hex2 kb)%string.
Proof. unfold rgbFToHexS. destruct (rgbFToInt8 r g b trc) as [[kr kg] kb]. reflexivity. Qed.

Lemma rgbFToInt8_bytes (r g b : R) (trc : string) :
  in01 r -> in01 g -> in01 b ->
  exists kr kg kb, rgbFToInt8 r g b trc = (kr, kg, kb)
    /\ (0 <= kr <= 255)%Z /\ (0 <= kg <= 255)%Z /\ (0 <= kb <= 255)%Z.
Proof.
  intros Hr Hg Hb. unfold rgbFToInt8. destruct (is_sRGB trc).
  - exists (pyint (r * 255)), (pyint (g * 255)), (pyint (b * 255)).
    split; [reflexivity |].
    split; [apply (channel_byte r Hr) |].
    split; [apply (channel_byte g Hg) | apply (channel_byte b Hb)].
  - exists (pyround_int (componentToSRGB r * 255)),
           (pyround_int (componentToSRGB g * 255)),
           (pyround_int (componentToSRGB b * 255)).
    split; [reflexivity |].
    split; [apply (linear_channel_byte r Hr) |].
    split; [apply (linear_channel_byte g Hg) | apply (linear_channel_byte b Hb)].
Qed.

Lemma hex_channel_in01 (trc : string) (k : Z) : (0 <= k <= 255)%Z -> in01 (hex_channel trc k).
Proof.
  intros [H0 H255]. apply IZR_le in H0, H255.
  assert (Hq : in01 (IZR k / 255.0)) by (unfold in01; lra).
  unfold hex_channel, trcOut. destruct (is_sRGB trc); [exact Hq |].
  now apply componentToLinear_in01.
Qed.



(** X21. For red, green and blue in [[0,1]], on either curve, the
    string that [rgbFToHexS] writes is one that [parseAnything] reads,
    whatever the current notation is: as the notation HEX, with the
    colour [hexSToRgbF] reads in it, a triple of the unit cube. *)
Theorem parseAnything_reads_rgbFToHexS (r g b : R) (trc cur : string) :
  in01 r -> in01 g -> in01 b ->
  exists res,
    hexSToRgbF (rgbFToHexS r g b trc) trc = Ok (Some res)
    /\ parseAnything (rgbFToHexS r g b trc) trc cur = Ok (Some (res, "HEX"))
    /\ rgb01 res.
Proof.
  intros Hr Hg Hb.
  destruct (rgbFToInt8_bytes r g b trc Hr Hg Hb) as (kr & kg & kb & E8 & Kr & Kg & Kb).
  exists (hex_channel trc kr, hex_channel trc kg, hex_channel trc kb).
  assert (E : hexSToRgbF (rgbFToHexS r g b trc) trc
              = Ok (Some (hex_channel trc kr, hex_channel trc kg, hex_channel trc kb))).
  { rewrite rgbFToHexS_bytes, E8. now apply hex_bytes_read. }
  split; [exact E |]. split; [now apply parseAnything_hashed |].
  repeat split; apply hex_channel_in01; assumption.
Qed.

Lemma parseAnything_reads_rgbFToHexS_witness :
  exists res,
    hexSToRgbF (rgbFToHexS 0 0.5 1 "sRGB") "sRGB" = Ok (Some res)
    /\ parseAnything (rgbFToHexS 0 0.5 1 "sRGB") "sRGB" "OKLCH" = Ok (Some (res, "HEX"))
    /\ rgb01 res.
Proof.
  apply (parseAnything_reads_rgbFToHexS 0 0.5 1 "sRGB" "OKLCH"); unfold in01; lra.
Defined.

(** ** Greys *)

Lemma cube_le_reflect (a b : R) : 0 <= a -> 0 <= b -> a * a * a <= b * b * b -> a <= b.
Proof.
  intros Ha Hb H. apply (pow_le_reflect 3); [lia | assumption | assumption |].
  simpl. lra.
Qed.

(** The cube root of a cone response that is [x] times a number close
    to 1 is close to the cube root of [x]. *)
Lemma cube_root_scaled (x y z d : R) :
  0 <= x -> 0 <= y -> 0 <= z -> 0 <= d ->
  y * y * y = x -> z * z * z = (1 + d) * x ->
  y <= z <= y * (1 + d).
Proof.
  intros Hx Hy Hz Hd Ey Ez.
  assert (Hdx : 0 <= d * x) by (apply Rmult_le_pos; assumption).
  split.
  - apply cube_le_reflect; [assumption | assumption | lra].
  - apply cube_le_reflect; [assumption | apply Rmult_le_pos; lra |].
    replace (y * (1 + d) * (y * (1 + d)) * (y * (1 + d)))
      with ((1 + d) * (1 + d) * (1 + d) * (y * y * y)) by ring.
    rewrite Ez, Ey.
    assert (H1 : 1 + d <= (1 + d) * (1 + d) * (1 + d)).
    { assert (0 <= d * d) by (apply Rmult_le_pos; assumption).
      assert (0 <= d * d * d) by (apply Rmult_le_pos; assumption).
      lra. }
    apply Rmult_le_compat_r; assumption.
Qed.

Lemma hypot_small (a b e : R) :
  0 < e -> - e <= a <= e -> - e <= b <= e -> hypot a b <= 2 * e.
Proof.
  intros He Ha Hb. unfold hypot.
  assert (Haa : a * a <= e * e).
  { destruct (Rle_dec 0 a).
    - apply Rmult_le_compat; lra.
    - replace (a * a) with ((- a) * (- a)) by ring. apply Rmult_le_compat; lra. }
  assert (Hbb : b * b <= e * e).
  { destruct (Rle_dec 0 b).
    - apply Rmult_le_compat; lra.
    - replace (b * b) with ((- b) * (- b)) by ring. apply Rmult_le_compat; lra. }
  rewrite <- (sqrt_square (2 * e)) by lra.
  apply sqrt_le_1_alt.
  assert (0 <= e * e) by (apply Rmult_le_pos; lra).
  replace (2 * e * (2 * e)) with (4 * (e * e)) by ring. lra.
Qed.

(** The Oklab coordinates of a grey of linear light: no lightness below
    0, and a chroma that the test of the neutral colours takes for 0. *)
Lemma grey_oklab (x : R) :
  in01 x ->
  exists okL okA okB,
    linearToOklab x x x = Ok (okL, okA, okB)
    /\ 0 <= okL /\ neutral (okL, okA, okB).
Proof.
  unfold in01. intros [H0 H1]. unfold linearToOklab. cbv zeta.
  set (l := 0.412221469470763 * x + 0.5363325372617348 * x + 0.0514459932675022 * x).
  set (m := 0.2119034958178252 * x + 0.6806995506452344 * x + 0.1073969535369406 * x).
  set (s := 0.0883024591900564 * x + 0.2817188391361215 * x + 0.6299787016738222 * x).
  assert (El : l = x) by (unfold l; lra).
  assert (Em : m = (1 + 0.0000000000000002) * x) by (unfold m; lra).
  assert (Es : s = (1 + 0.0000000000000001) * x) by (unfold s; lra).
  clearbody l m s.
  destruct (cube_root l) as (yl & Pl & Hyl & Cl); [lra |].
  destruct (cube_root m) as (ym & Pm & Hym & Cm); [lra |].
  destruct (cube_root s) as (ys & Ps & Hys & Cs); [lra |].
  rewrite Pl, Pm, Ps. cbn [bind].
  rewrite El in Cl. rewrite Em in Cm. rewrite Es in Cs.
  assert (Hl1 : yl <= 1) by (apply cube_le_reflect; lra).
  assert (Bm : yl <= ym <= yl * (1 + 0.0000000000000002))
    by (apply (cube_root_scaled x); [assumption .. | lra | assumption | assumption]).
  assert (Bs : yl <= ys <= yl * (1 + 0.0000000000000001))
    by (apply (cube_root_scaled x); [assumption .. | lra | assumption | assumption]).
  eexists _, _, _. split; [reflexivity |]. split; [lra |].
  unfold neutral, cartesianToPolar. cbn [fst snd].
  apply Rle_lt_trans with (2 * 0.00000000000001); [| lra].
  apply hypot_small; lra.
Qed.

Lemma grey_oklabOf (x : R) (trc : string) :
  in01 x ->
  exists okL okA okB,
    oklabOf x x x trc = Ok (okL, okA, okB)
    /\ 0 <= okL /\ neutral (okL, okA, okB).
Proof.
  intros Hx. unfold oklabOf. destruct (is_sRGB trc).
  - apply grey_oklab. now apply componentToLinear_in01.
  - now apply grey_oklab.
Qed.

(** A neutral colour has no saturation in [rgbFToOkhsl], and keeps the
    hue that its Oklab coordinates give. *)
Lemma rgbFToOkhsl_neutral (r g b : R) (trc : string) (okL okA okB : R) :
  oklabOf r g b trc = Ok (okL, okA, okB) -> neutral (okL, okA, okB) ->
  rgbFToOkhsl r g b trc
  = (let ch := cartesianToPolar okA okB in
     let h := if (Rltb 264.052 (snd ch) && Rltb (snd ch) 264.06)%bool
              then 264.06 else snd ch in
     l <- toe okL ;; Ok (pyround h 2, 0, pyround (l * 100) 2)).
Proof.
  unfold oklabOf, neutral, rgbFToOkhsl. intros Hlab Hn. cbn [fst snd] in Hn.
  destruct (is_sRGB trc); rewrite Hlab; cbn [bind]; cbv zeta;
    rewrite (Rleb_false _ _ Hn); cbn [bind];
    (destruct (toe okL); [| reflexivity]); cbn [bind];
    rewrite pyround_zero; reflexivity.
Qed.

(** X22. A grey, red = green = blue in [[0,1]], is a neutral colour on
    either curve: the chroma of its Oklab coordinates is below the
    1e-6 of the test, [rgbFToOkhsv] returns the hue 0 and the
    saturation 0 for it, and [rgbFToOkhsl] returns the saturation 0. *)
Theorem greys_are_neutral (x : R) (trc : string) :
  in01 x ->
  (exists lab, oklabOf x x x trc = Ok lab /\ neutral lab)
  /\ (exists v, rgbFToOkhsv x x x trc = Ok (0, 0, v))
  /\ (exists h l, rgbFToOkhsl x x x trc = Ok (h, 0, l)).
Proof.
  intros Hx.
  destruct (grey_oklabOf x trc Hx) as (okL & okA & okB & Hlab & HL & Hn).
  split; [now exists (okL, okA, okB) |]. split.
  - rewrite (rgbFToOkhsv_neutral x x x trc okL okA okB Hlab Hn).
    rewrite (toe_value okL HL). cbn [bind]. eexists. reflexivity.
  - rewrite (rgbFToOkhsl_neutral x x x trc okL okA okB Hlab Hn). cbv zeta.
    rewrite (toe_value okL HL). cbn [bind]. eexists _, _. reflexivity.
Qed.

Lemma greys_are_neutral_witness :
  (exists lab, oklabOf 0.5 0.5 0.5 "sRGB" = Ok lab /\ neutral lab)
  /\ (exists v, rgbFToOkhsv 0.5 0.5 0.5 "sRGB" = Ok (0, 0, v))
  /\ (exists h l, rgbFToOkhsl 0.5 0.5 0.5 "sRGB" = Ok (h, 0, l)).
Proof. apply (greys_are_neutral 0.5 "sRGB"). unfold in01. lra. Defined.
